(** * specs-actors: the agent simulation engine and the multisig actor state

    A shallow embedding of

    - [actors/builtin/multisig/multisig_actor_state.go]: the linear-unlock
      arithmetic of the multisig wallet ([AmountLocked], [_hasAvailable]);
    - package [agent]: the simulation engine [Sim] with its epoch loop
      [Tick], the power table builder [ComputePowerTable] and the
      leader-election sampler [WinCount].

    Go's fixed-width integers are integers of [Z] with the wrap-around
    written out, [big.Int] is [Z], [float64] and [float32] are the kernel's
    binary64 numbers (every binary32 number is one of them and is compared the
    same way).  The collaborators of the engine (ledger, random source, agents,
    the [math] package) are the fields of the class [Collaborators].

    Section [Executions] has the engine a second time, in an environment
    whose calls may have several results, for the statements about two
    executions; Section [Quantile] has the Poisson distribution over the
    real numbers, for the statement about what [WinCount] returns. *)

From Stdlib Require Import ZArith List Bool Lia Floats String Reals Lra.
From stdpp Require Import base option list.

Local Open Scope Z_scope.

(** ** Fixed-width integers *)

Module Int64.

Definition modulus : Z := 2 ^ 64.
Definition half_modulus : Z := 2 ^ 63.
Definition min_signed : Z := - 2 ^ 63.
Definition max_signed : Z := 2 ^ 63 - 1.

(** The values of Go's [int64]. *)
Definition in_range (z : Z) : Prop := min_signed <= z <= max_signed.

(** Two's complement reduction of an integer to [int64]. *)
Definition wrap (z : Z) : Z := (z + half_modulus) mod modulus - half_modulus.

Definition add (a b : Z) : Z := wrap (a + b).
Definition sub (a b : Z) : Z := wrap (a - b).

(** Go's [/] on integers truncates toward zero and panics on a zero divisor
    ([None]). *)
Definition div (a b : Z) : option Z :=
  if b =? 0 then None else Some (wrap (Z.quot a b)).

End Int64.

Module Uint64.

(** Conversion of an [int64] (or of any integer) to [uint64]. *)
Definition of_Z (z : Z) : Z := z mod Int64.modulus.

Definition add (a b : Z) : Z := (a + b) mod Int64.modulus.
Definition mul (a b : Z) : Z := (a * b) mod Int64.modulus.

End Uint64.

(** ** The multisig actor state *)

Module Multisig.

(** [abi.TokenAmount], [abi.ChainEpoch] and [abi.ActorID] are declared in
    package [abi]; the conversions and comparisons of this file
    ([abi.TokenAmount(0)], [uint64(st.InitialBalance)], [amountToSpend < 0])
    need integer types, and they are taken as [int64], the type of an epoch
    and of an amount in that package.  The two HAMT fields of the state are
    read by none of the functions below and are left out. *)
Record MultiSigActorState : Type := {
  InitialBalance : Z;
  StartEpoch : Z;
  UnlockDuration : Z;
  AuthorizedParties : list Z;
  NumApprovalsThreshold : Z;
  NextTxnID : Z
}.

(** The three integer fields the unlock arithmetic reads hold [int64]
    values. *)
Definition well_typed (st : MultiSigActorState) : Prop :=
  Int64.in_range (InitialBalance st) /\
  Int64.in_range (StartEpoch st) /\
  Int64.in_range (UnlockDuration st).

(** [None] is the run-time panic of the integer division by zero. *)
Definition AmountLocked (st : MultiSigActorState) (elapsedEpoch : Z) : option Z :=
  if UnlockDuration st <=? elapsedEpoch then Some 0
  else
    match Int64.div (Int64.sub (UnlockDuration st) elapsedEpoch) (UnlockDuration st) with
    | None => None
    | Some lockedProportion =>
        Some (Int64.wrap (Uint64.mul (Uint64.of_Z (InitialBalance st))
                                     (Uint64.of_Z lockedProportion)))
    end.

Fixpoint isAuthorizedParty_loop (parties : list Z) (party : Z) : bool :=
  match parties with
  | [] => false
  | ap :: rest => if party =? ap then true else isAuthorizedParty_loop rest party
  end.

Definition isAuthorizedParty (st : MultiSigActorState) (party : Z) : bool :=
  isAuthorizedParty_loop (AuthorizedParties st) party.

Definition _hasAvailable (st : MultiSigActorState)
    (currBalance amountToSpend currEpoch : Z) : option bool :=
  if (amountToSpend <? 0) || (currBalance <? amountToSpend) then Some false
  else
    match AmountLocked st (Int64.sub currEpoch (StartEpoch st)) with
    | None => None
    | Some locked =>
        if Int64.sub currBalance amountToSpend <? locked then Some false
        else Some true
    end.

(** A wallet of 1000 units that unlocks over 10 epochs from epoch 5. *)
Definition wallet : MultiSigActorState :=
  {| InitialBalance := 1000; StartEpoch := 5; UnlockDuration := 10;
     AuthorizedParties := [1; 2]; NumApprovalsThreshold := 2; NextTxnID := 0 |}.

End Multisig.

(** ** Results of Go code that may not return *)

(** A Go function called on a given state returns a value, panics (an integer
    division by zero, an index out of range, a failed type assertion), or,
    in this embedding, runs out of the fuel that bounds its unbounded [for]
    loops. *)
Inductive Run (A : Type) : Type :=
  | Returned (a : A)
  | Panic
  | Timeout.
Arguments Returned {A} a.
Arguments Panic {A}.
Arguments Timeout {A}.

(** ** Numbers of [math/big] and [float64] *)

Module Float64.

(** Go's [a > b] on [float64]: false when either side is a NaN. *)
Definition gt (a b : float) : bool := PrimFloat.ltb b a.

(** The binary64 number nearest to the rational [num / den] ([0 < den]),
    ties to even: the quotient is computed with at least 64 significant bits
    and rounded once, with the position of the remainder. *)
Definition nearest (num den : Z) : float :=
  if num =? 0 then PrimFloat.zero
  else
    let a := Z.abs num in
    let s := Z.max 0 (Z.log2 den + 64 - Z.log2 a) in
    let q := (a * 2 ^ s) / den in
    let r := (a * 2 ^ s) mod den in
    let loc := if r =? 0 then loc_Exact else loc_Inexact (2 * r ?= den) in
    SF2Prim (binary_round_aux prec emax (num <? 0) q (- s) loc).

(** [float64(k)] for [k : uint64]. *)
Definition of_uint64 (k : Z) : float := nearest k 1.

End Float64.

Module Rat.

(** A [big.Rat]: a numerator and a positive denominator. *)
Record t : Type := mk { num : Z; den : Z }.

(** [big.NewRat(a, b)] and [Rat.SetFrac(a, b)] panic on [b = 0] and
    otherwise hold [a/b] in lowest terms with a positive denominator. *)
Definition SetFrac (a b : Z) : option t :=
  if b =? 0 then None
  else
    let g := Z.gcd a b in
    Some (mk (Z.sgn b * a / g) (Z.abs b / g)).

Definition Mul (x y : t) : t :=
  let n := num x * num y in
  let d := den x * den y in
  let g := Z.gcd n d in
  if g =? 0 then mk 0 1 else mk (n / g) (d / g).

(** [Rat.Float64], without its exactness flag. *)
Definition Float64 (x : t) : float := Float64.nearest (num x) (den x).

End Rat.

(** ** The data of the simulation *)

(** The types and constants the engine takes from the packages it imports. *)
Class Domain : Type := {
  Address : Type;          (* address.Address *)
  Err : Type;              (* an [error] value returned by a collaborator *)
  VM : Type;               (* *vm.VM, a handle on the ledger *)
  Store : Type;            (* adt.Store *)
  Rng : Type;              (* the state of a *rand.Rand *)
  Agent : Type;            (* a value of the interface Agent *)
  AgentHeap : Type;        (* the objects agents point to, private to them *)
  Callback : Type;         (* a return handler built by an agent *)
  CallStats : Type;        (* map[vm.MethodKey]*vm.CallStats *)
  RewardState : Type;      (* reward.State *)
  PowerState : Type;       (* power.State *)
  Claim : Type;            (* power.Claim *)
  ActorParams : Type;      (* method parameters other than the engine's own *)
  ActorReturn : Type;      (* return values other than power.CreateMinerReturn *)
  SystemActorAddr : Address;
  CronActorAddr : Address;
  RewardActorAddr : Address;
  StoragePowerActorAddr : Address;
  MethodsCron_EpochTick : Z;
  MethodsReward_AwardBlockReward : Z;
  MethodsPower_CreateMiner : Z;
  RegisteredSealProof_StackedDrg32GiBV1_1 : Z;
  emptyHeap : AgentHeap    (* no agent object allocated yet *)
}.

(** [exitcode.Ok]. *)
Definition exitcode_Ok : Z := 0.

Record SimConfig : Type := {
  AccountCount : Z;
  AccountInitialBalance : Z;
  Seed : Z;
  CreateMinerProbability : float
}.

Record MinerAgentConfig : Type := {
  PrecommitRate : float;
  ProofType : Z;
  StartingBalance : Z
}.

Section Data.
Context {D : Domain}.

(** The [interface{}] in the field [Params] of a message. *)
Inductive MethodParams : Type :=
  | NilParams
  | CreateMinerParams (Owner Worker : Address) (SealProofType : Z)
  | AwardBlockRewardParams (Miner : Address) (Penalty GasReward WinCount : Z)
  | OtherParams (p : ActorParams).

(** The [cbor.Marshaler] returned by the ledger. *)
Inductive MethodReturn : Type :=
  | NilReturn
  | CreateMinerReturn (IDAddress RobustAddress : Address)
  | OtherReturn (r : ActorReturn).

(** A message whose return handler, when present, is a closure described by
    a value of [H]. *)
Record message_of (H : Type) : Type := {
  From_ : Address;
  To : Address;
  Value : Z;
  Method : Z;
  Params : MethodParams;
  ReturnHandler : option H
}.

(** The closures the engine meets: the one [Sim.createMiner] builds, which
    captures the engine and the miner configuration, and those of agents,
    which capture nothing of the engine. *)
Inductive returnHandler : Type :=
  | createMinerHandler (cfg : MinerAgentConfig)
  | agentHandler (cb : Callback).

Definition message : Type := message_of returnHandler.

Definition liftMessage (m : message_of Callback) : message :=
  {| From_ := From_ _ m; To := To _ m; Value := Value _ m; Method := Method _ m;
     Params := Params _ m; ReturnHandler := agentHandler <$> ReturnHandler _ m |}.

Record minerPowerTable : Type := {
  addr : Address;
  qaPower : Z
}.

Record powerTable : Type := {
  blockReward : Z;
  totalQAPower : Z;
  minerPower : list minerPowerTable
}.

(** The arguments of one call of [ApplyMessage]. *)
Record Request : Type := {
  reqFrom : Address;
  reqTo : Address;
  reqValue : Z;
  reqMethod : Z;
  reqParams : MethodParams
}.

(** The place in [Tick] a request was submitted from. *)
Inductive Origin : Type := Batch | Reward | Cron.

Definition Applied : Type := (Origin * Request)%type.

(** The error values [Tick] returns. *)
Inductive SimError : Type :=
  | External (e : Err)
    (* the error of a collaborator, passed on as it is *)
  | MessageFailed (code : Z) (msg : message) (logs : list string)
    (* "exitcode %d: message failed: %v\n%s\n" *)
  | RewardFailed (code : Z) (logs : list string)
    (* "exitcode %d: reward message failed:\n%s\n" *)
  | CronFailed (code : Z) (logs : list string)
    (* "exitcode %d: cron message failed:\n%s\n" *)
  | WrongReturnType (ret : MethodReturn).
    (* "create miner return has wrong type: %v" *)

(** How a call of [Tick], or of a part of it, ends. *)
Inductive Outcome : Type :=
  | Done
  | Failed (e : SimError)
  | Panicked
  | OutOfFuel.

Record Sim : Type := {
  Config : SimConfig;
  Accounts : list Address;
  Agents : list Agent;
  v : VM;
  rnd : Rng;
  statsByMethod : option CallStats;   (* [None] is the nil map *)
  heap : AgentHeap                    (* what the pointers in [Agents] point to *)
}.

End Data.

Arguments From_ {D H} m.
Arguments To {D H} m.
Arguments Value {D H} m.
Arguments Method {D H} m.
Arguments Params {D H} m.
Arguments ReturnHandler {D H} m.

(** ** The collaborators of the engine *)

(** The operations of the packages [vm], [reward], [power], [math] and
    [math/rand] the engine calls, and the agents.  A Go method that updates
    the object it is called on returns the updated object here. *)
Class Collaborators {D : Domain} : Type := {
  (* package vm *)
  NewCustomStoreVMWithSingletons : Store -> VM;
  CreateAccounts : VM -> Z -> Z -> Z -> list Address * VM;
  GetEpoch : VM -> Z;
  ApplyMessage : VM -> Address -> Address -> Z -> Z -> MethodParams ->
                 VM * (MethodReturn * Z);
  GetLogs : VM -> list string;
  GetCallStats : VM -> CallStats;
  WithEpoch : VM -> Z -> VM * option Err;
  (* v.GetState(builtin.RewardActorAddr, &rwst) and rwst.ThisEpochReward *)
  GetRewardState : VM -> RewardState + Err;
  ThisEpochReward : RewardState -> Z;
  (* v.GetState(builtin.StoragePowerActorAddr, &st) and the methods of st *)
  GetPowerState : VM -> PowerState + Err;
  TotalQualityAdjPower : PowerState -> Z;
  GetClaim : PowerState -> VM -> Address -> option Claim + Err;
  QualityAdjPower : Claim -> Z;
  MinerNominalPowerMeetsConsensusMinimum : PowerState -> VM -> Address -> bool + Err;
  (* package math/rand: rand.New(rand.NewSource(seed)) and the draws *)
  NewRand : Z -> Rng;
  Float32 : Rng -> float * Rng;
  Float64 : Rng -> float * Rng;
  (* the calls swap(i, j) that Shuffle(n, swap) makes, in order *)
  Shuffle : Rng -> nat -> list (nat * nat) * Rng;
  (* package math *)
  Exp : float -> float;
  Pow : float -> float -> float;
  (* agents: the method Tick, the type assertion to a MinerAgent with its
     field IDAddress, the constructor, and the return handlers of their
     messages; an agent reads the ledger, draws from the generator it was
     given and updates its own objects *)
  agentTick : Agent -> VM -> AgentHeap * Rng ->
              (AgentHeap * Rng) * (list (message_of Callback) + Err);
  asMinerAgent : Agent -> AgentHeap -> option Address;
  NewMinerAgent : Address -> Address -> Address -> Address -> MinerAgentConfig ->
                  AgentHeap * Rng -> Agent * (AgentHeap * Rng);
  runCallback : Callback -> VM -> message -> MethodReturn -> AgentHeap * Rng ->
                (AgentHeap * Rng) * option Err
}.

(** ** The engine *)

Section Engine.
Context {D : Domain} {C : Collaborators}.

Local Open Scope float_scope.

(** *** The leader-election sampler *)

(** [for i := 2.0; i <= k; i += 1.0 { fact *= i }] *)
Fixpoint fact_loop (fuel : nat) (k i fact : float) : Run float :=
  if PrimFloat.leb i k then
    match fuel with
    | O => Timeout
    | S fuel' => fact_loop fuel' k (i + 1) (fact * i)
    end
  else Returned fact.

Definition fact (fuel : nat) (k : float) : Run float := fact_loop fuel k 2 1.

Definition poissonPMF (fuel : nat) (lambda : float) (k : Z) : Run float :=
  let fk := Float64.of_uint64 k in
  match fact fuel fk with
  | Returned f => Returned ((Exp (- lambda) * Pow lambda fk) / f)
  | Panic => Panic
  | Timeout => Timeout
  end.

(** [for rhs > h { winCount++; rhs -= poissonPMF(lambda, winCount) }] *)
Fixpoint WinCount_loop (n fuel : nat) (lambda h rhs : float) (winCount : Z) : Run Z :=
  if Float64.gt rhs h then
    match n with
    | O => Timeout
    | S n' =>
        let winCount := Uint64.add winCount 1 in
        match poissonPMF fuel lambda winCount with
        | Returned p => WinCount_loop n' fuel lambda h (rhs - p) winCount
        | Panic => Panic
        | Timeout => Timeout
        end
    end
  else Returned winCount.

(** The generator after the call, and the result. *)
Definition WinCount (fuel : nat) (r : Rng) (minerPower totalPower : Z) : Rng * Run Z :=
  let E := Rat.mk 5 1 in
  match Rat.SetFrac minerPower totalPower with
  | None => (r, Panic)
  | Some lambdaR =>
      let lambdaR := Rat.Mul lambdaR E in
      let lambda := Rat.Float64 lambdaR in
      let (h, r') := Float64 r in
      match poissonPMF fuel lambda 0 with
      | Returned p0 => (r', WinCount_loop fuel fuel lambda h (1 - p0) 0)
      | Panic => (r', Panic)
      | Timeout => (r', Timeout)
      end
  end.

Local Close Scope float_scope.

(** *** The power table *)

Definition appendMinerPower (pt : powerTable) (m : minerPowerTable) : powerTable :=
  {| blockReward := blockReward pt; totalQAPower := totalQAPower pt;
     minerPower := minerPower pt ++ [m] |}.

(** [for _, agent := range agents { ... }] of [ComputePowerTable] *)
Fixpoint ComputePowerTable_loop (st : PowerState) (vm : VM) (h : AgentHeap)
    (agents : list Agent) (pt : powerTable) : powerTable * option Err :=
  match agents with
  | [] => (pt, None)
  | agent :: rest =>
      match asMinerAgent agent h with
      | Some idAddress =>
          match GetClaim st vm idAddress with
          | inr err => (pt, Some err)
          | inl None => ComputePowerTable_loop st vm h rest pt
          | inl (Some claim) =>
              match MinerNominalPowerMeetsConsensusMinimum st vm idAddress with
              | inr err => (pt, Some err)
              | inl true =>
                  ComputePowerTable_loop st vm h rest
                    (appendMinerPower pt
                       {| addr := idAddress; qaPower := QualityAdjPower claim |})
              | inl false => ComputePowerTable_loop st vm h rest pt
              end
          end
      | None => ComputePowerTable_loop st vm h rest pt
      end
  end.

Definition emptyPowerTable : powerTable :=
  {| blockReward := 0; totalQAPower := 0; minerPower := [] |}.

Definition ComputePowerTable (vm : VM) (h : AgentHeap) (agents : list Agent)
    : powerTable * option Err :=
  match GetRewardState vm with
  | inr err => (emptyPowerTable, Some err)
  | inl rwst =>
      match GetPowerState vm with
      | inr err => (emptyPowerTable, Some err)
      | inl st =>
          ComputePowerTable_loop st vm h agents
            {| blockReward := ThisEpochReward rwst;
               totalQAPower := TotalQualityAdjPower st;
               minerPower := [] |}
      end
  end.

(** *** Updates of the fields of the engine *)

Definition set_v (s : Sim) (vm : VM) : Sim :=
  {| Config := Config s; Accounts := Accounts s; Agents := Agents s; v := vm;
     rnd := rnd s; statsByMethod := statsByMethod s; heap := heap s |}.

Definition set_rnd (s : Sim) (r : Rng) : Sim :=
  {| Config := Config s; Accounts := Accounts s; Agents := Agents s; v := v s;
     rnd := r; statsByMethod := statsByMethod s; heap := heap s |}.

Definition set_heap (s : Sim) (h : AgentHeap) : Sim :=
  {| Config := Config s; Accounts := Accounts s; Agents := Agents s; v := v s;
     rnd := rnd s; statsByMethod := statsByMethod s; heap := h |}.

Definition set_Agents (s : Sim) (agents : list Agent) : Sim :=
  {| Config := Config s; Accounts := Accounts s; Agents := agents; v := v s;
     rnd := rnd s; statsByMethod := statsByMethod s; heap := heap s |}.

Definition set_statsByMethod (s : Sim) (stats : option CallStats) : Sim :=
  {| Config := Config s; Accounts := Accounts s; Agents := Agents s; v := v s;
     rnd := rnd s; statsByMethod := stats; heap := heap s |}.

(** What agent code leaves behind: its objects and the shared generator. *)
Definition set_world (s : Sim) (w : AgentHeap * Rng) : Sim :=
  set_rnd (set_heap s (fst w)) (snd w).

(** *** Construction *)

Definition NewSim (store : Store) (config : SimConfig) : Sim :=
  let vm := NewCustomStoreVMWithSingletons store in
  let (accounts, vm) :=
    CreateAccounts vm (AccountCount config) (AccountInitialBalance config) (Seed config) in
  {| Config := config; Accounts := accounts; Agents := []; v := vm;
     rnd := NewRand (Seed config); statsByMethod := None; heap := emptyHeap |}.

(** [Sim.GetCallStats] and [Sim.GetVM]. *)
Definition Sim_GetCallStats (s : Sim) : option CallStats := statsByMethod s.

Definition Sim_GetVM (s : Sim) : VM := v s.

(** *** Requests and their submission *)

Definition request_of (msg : message) : Request :=
  {| reqFrom := From_ msg; reqTo := To msg; reqValue := Value msg;
     reqMethod := Method msg; reqParams := Params msg |}.

Definition apply (vm : VM) (r : Request) : VM * (MethodReturn * Z) :=
  ApplyMessage vm (reqFrom r) (reqTo r) (reqValue r) (reqMethod r) (reqParams r).

Definition rewardRequest (miner : Address) (wins : Z) : Request :=
  {| reqFrom := SystemActorAddr; reqTo := RewardActorAddr; reqValue := 0;
     reqMethod := MethodsReward_AwardBlockReward;
     reqParams := AwardBlockRewardParams miner 0 0 (Int64.wrap wins) |}.

Definition cronRequest : Request :=
  {| reqFrom := SystemActorAddr; reqTo := CronActorAddr; reqValue := 0;
     reqMethod := MethodsCron_EpochTick; reqParams := NilParams |}.

(** *** Request production *)

(** [for _, agent := range s.Agents { ... }]: the objects and the generator
    the agents leave, and the messages or the first error. *)
Fixpoint tickAgents (agents : list Agent) (vm : VM) (w : AgentHeap * Rng)
    (blockMessages : list message) : (AgentHeap * Rng) * (list message + Err) :=
  match agents with
  | [] => (w, inl blockMessages)
  | agent :: rest =>
      match agentTick agent vm w with
      | (w', inr err) => (w', inr err)
      | (w', inl msgs) =>
          tickAgents rest vm w' (blockMessages ++ map liftMessage msgs)
      end
  end.

Definition createMiner (s : Sim) (owner : Address) (cfg : MinerAgentConfig) : message :=
  {| From_ := owner;
     To := StoragePowerActorAddr;
     Value := AccountInitialBalance (Config s);
     Method := MethodsPower_CreateMiner;
     Params := CreateMinerParams owner owner (ProofType cfg);
     ReturnHandler := Some (createMinerHandler cfg) |}.

Definition newMinerConfig (s : Sim) : MinerAgentConfig :=
  {| PrecommitRate := 2.5%float;
     ProofType := RegisteredSealProof_StackedDrg32GiBV1_1;
     StartingBalance := AccountInitialBalance (Config s) |}.

(** "add at most 1 miner per epoch": the generator after the step, and the
    batch. *)
Definition addMiner (s : Sim) (blockMessages : list message) : Rng * Run (list message) :=
  if (length (Agents s) <? length (Accounts s))%nat then
    let (f, r) := Float32 (rnd s) in
    if PrimFloat.ltb f (CreateMinerProbability (Config s)) then
      match Accounts s !! length (Agents s) with
      | Some owner => (r, Returned (blockMessages ++ [createMiner s owner (newMinerConfig s)]))
      | None => (r, Panic)
      end
    else (r, Returned blockMessages)
  else (rnd s, Returned blockMessages).

(** [blockMessages[i], blockMessages[j] = blockMessages[j], blockMessages[i]];
    [None] is the panic of an index out of range. *)
Definition swap (blockMessages : list message) (i j : nat) : option (list message) :=
  match blockMessages !! i, blockMessages !! j with
  | Some mi, Some mj => Some (<[j := mi]> (<[i := mj]> blockMessages))
  | _, _ => None
  end.

Fixpoint applySwaps (swaps : list (nat * nat)) (blockMessages : list message)
    : option (list message) :=
  match swaps with
  | [] => Some blockMessages
  | (i, j) :: rest =>
      match swap blockMessages i j with
      | Some l => applySwaps rest l
      | None => None
      end
  end.

(** The first half of [Tick], from the agents to the shuffled batch: the
    engine after it and the batch, or how [Tick] ends. *)
Definition produceBatch (s : Sim) : Sim * (list message + Outcome) :=
  match tickAgents (Agents s) (v s) (heap s, rnd s) [] with
  | (w, inr err) => (set_world s w, inr (Failed (External err)))
  | (w, inl blockMessages) =>
      let s := set_world s w in
      match addMiner s blockMessages with
      | (r, Returned blockMessages) =>
          let s := set_rnd s r in
          let (swaps, r) := Shuffle (rnd s) (length blockMessages) in
          let s := set_rnd s r in
          match applySwaps swaps blockMessages with
          | Some blockMessages => (s, inl blockMessages)
          | None => (s, inr Panicked)
          end
      | (r, Panic) => (set_rnd s r, inr Panicked)
      | (r, Timeout) => (set_rnd s r, inr OutOfFuel)
      end
  end.

(** *** Execution of the batch *)

Definition runHandler (h : returnHandler) (s : Sim) (msg : message) (ret : MethodReturn)
    : Sim * Outcome :=
  match h with
  | createMinerHandler cfg =>
      match ret with
      | CreateMinerReturn idAddress robustAddress =>
          match Params msg with
          | CreateMinerParams owner worker _ =>
              let (miner, w) :=
                NewMinerAgent owner worker idAddress robustAddress cfg (heap s, rnd s) in
              (set_Agents (set_world s w) (Agents s ++ [miner]), Done)
          | _ => (s, Panicked)
          end
      | _ => (s, Failed (WrongReturnType ret))
      end
  | agentHandler cb =>
      match runCallback cb (v s) msg ret (heap s, rnd s) with
      | (w, None) => (set_world s w, Done)
      | (w, Some err) => (set_world s w, Failed (External err))
      end
  end.

(** [for _, msg := range blockMessages { ... }]: the requests submitted, the
    engine after them, and how the loop ends. *)
Fixpoint runMessages (msgs : list message) (s : Sim) : list Applied * Sim * Outcome :=
  match msgs with
  | [] => ([], s, Done)
  | msg :: rest =>
      let '(vm, (ret, code)) := apply (v s) (request_of msg) in
      let s := set_v s vm in
      if negb (code =? exitcode_Ok) then
        ([(Batch, request_of msg)], s, Failed (MessageFailed code msg (GetLogs vm)))
      else
        let '(s, out) :=
          match ReturnHandler msg with
          | Some h => runHandler h s msg ret
          | None => (s, Done)
          end in
        match out with
        | Done =>
            let '(tr, s, out) := runMessages rest s in
            ((Batch, request_of msg) :: tr, s, out)
        | _ => ([(Batch, request_of msg)], s, out)
        end
  end.

(** *** Block rewards *)

Definition rewardMiner (s : Sim) (miner : Address) (wins : Z) : list Applied * Sim * Outcome :=
  if wins <? 1 then ([], s, Done)
  else
    let '(vm, (_, code)) := apply (v s) (rewardRequest miner wins) in
    let s := set_v s vm in
    if negb (code =? exitcode_Ok) then
      ([(Reward, rewardRequest miner wins)], s, Failed (RewardFailed code (GetLogs vm)))
    else ([(Reward, rewardRequest miner wins)], s, Done).

(** [for _, miner := range powerTable.minerPower { ... }] *)
Fixpoint applyBlockRewards (fuel : nat) (total : Z) (miners : list minerPowerTable)
    (s : Sim) : list Applied * Sim * Outcome :=
  match miners with
  | [] => ([], s, Done)
  | miner :: rest =>
      if 0 <? total then
        match WinCount fuel (rnd s) (qaPower miner) total with
        | (r, Returned wins) =>
            match rewardMiner (set_rnd s r) (addr miner) wins with
            | (tr, s, Done) =>
                let '(tr', s, out) := applyBlockRewards fuel total rest s in
                (tr ++ tr', s, out)
            | (tr, s, out) => (tr, s, out)
            end
        | (r, Panic) => ([], set_rnd s r, Panicked)
        | (r, Timeout) => ([], set_rnd s r, OutOfFuel)
        end
      else applyBlockRewards fuel total rest s
  end.

(** *** End of the epoch *)

(** "run cron", "store last stats" and the epoch advance. *)
Definition endEpoch (s : Sim) : list Applied * Sim * Outcome :=
  let '(vm, (_, code)) := apply (v s) cronRequest in
  let s := set_v s vm in
  if negb (code =? exitcode_Ok) then
    ([(Cron, cronRequest)], s, Failed (CronFailed code (GetLogs vm)))
  else
    let s := set_statsByMethod s (Some (GetCallStats (v s))) in
    let (vm, err) := WithEpoch (v s) (Int64.add (GetEpoch (v s)) 1) in
    ([(Cron, cronRequest)], set_v s vm,
     match err with Some e => Failed (External e) | None => Done end).

(** *** One epoch *)

(** The requests submitted to the ledger, in order and with the place they
    come from, the engine after the call, and how the call ends. *)
Definition Tick (fuel : nat) (s : Sim) : list Applied * Sim * Outcome :=
  match ComputePowerTable (v s) (heap s) (Agents s) with
  | (_, Some err) => ([], s, Failed (External err))
  | (powerTable, None) =>
      match produceBatch s with
      | (s, inr out) => ([], s, out)
      | (s, inl blockMessages) =>
          match runMessages blockMessages s with
          | (tr1, s, Done) =>
              match applyBlockRewards fuel (totalQAPower powerTable)
                      (minerPower powerTable) s with
              | (tr2, s, Done) =>
                  let '(tr3, s, out) := endEpoch s in
                  (tr1 ++ tr2 ++ tr3, s, out)
              | (tr2, s, out) => (tr1 ++ tr2, s, out)
              end
          | (tr1, s, out) => (tr1, s, out)
          end
      end
  end.

(** [n] calls of [Tick], stopped by the first that does not return [nil]:
    the requests of each call. *)
Fixpoint run (fuel n : nat) (s : Sim) : list (list Applied) * Sim * Outcome :=
  match n with
  | O => ([], s, Done)
  | S n' =>
      match Tick fuel s with
      | (tr, s, Done) =>
          let '(trs, s, out) := run fuel n' s in
          (tr :: trs, s, out)
      | (tr, s, out) => ([tr], s, out)
      end
  end.

End Engine.

(** ** Predicates of the specification *)

Section Predicates.
Context {D : Domain} {C : Collaborators}.

(** One step of the ledger: the handle after a request. *)
Definition ledger_step (vm : VM) (r : Request) : VM := fst (apply vm r).

(** Modelled from the spec: package [vm], which holds [ApplyMessage], is not
    among the sources; the specification has a request with a non-success
    result code commit nothing ("ledger state reflects only messages #1-#2
    having committed").  An observation of the ledger is of its committed
    state when such a request leaves it as it was. *)
Definition committed_state {X : Type} (obs : VM -> X) : Prop :=
  forall vm r, snd (snd (apply vm r)) <> exitcode_Ok -> obs (fst (apply vm r)) = obs vm.

(** A producer that is in the power table of the ledger and the agents of
    [s] when the total power is positive: one of the agents is a miner agent
    of this address, the power actor holds a claim for it, and its nominal
    power meets the consensus minimum. *)
Definition eligible (s : Sim) (a : Address) (qa total : Z) : Prop :=
  exists agent st claim,
    In agent (Agents s) /\
    asMinerAgent agent (heap s) = Some a /\
    GetPowerState (v s) = inl st /\
    GetClaim st (v s) a = inl (Some claim) /\
    MinerNominalPowerMeetsConsensusMinimum st (v s) a = inl true /\
    qa = QualityAdjPower claim /\
    total = TotalQualityAdjPower st /\
    0 < total.

(** The messages of a batch that carry the handler of [Sim.createMiner]. *)
Definition isCreateMiner (msg : message) : bool :=
  match ReturnHandler msg with
  | Some (createMinerHandler _) => true
  | _ => false
  end.

Fixpoint creations (msgs : list message) : nat :=
  match msgs with
  | [] => O
  | msg :: rest => ((if isCreateMiner msg then 1 else 0) + creations rest)%nat
  end.

(** Two engines that agree on all that [NewSim] and the harness set up:
    configuration, accounts, agents and their objects, ledger and
    generator.  The statistics of the last epoch are left free. *)
Definition same_inputs (s1 s2 : Sim) : Prop :=
  Config s1 = Config s2 /\ Accounts s1 = Accounts s2 /\ Agents s1 = Agents s2 /\
  v s1 = v s2 /\ rnd s1 = rnd s2 /\ heap s1 = heap s2.

(** The entry of the trace for a message of the batch. *)
Definition batchEntry (msg : message) : Applied := (Batch, request_of msg).

(** The ledger after a sequence of requests. *)
Definition ledger_after (vm : VM) (tr : list Applied) : VM :=
  fold_left ledger_step (map snd tr) vm.

(** What a part of [Tick] that only talks to the ledger and to agent code
    leaves untouched, and how far it may extend the agent set. *)
Definition frame (n : nat) (s s' : Sim) : Prop :=
  Config s' = Config s /\ Accounts s' = Accounts s /\
  statsByMethod s' = statsByMethod s /\
  exists new, Agents s' = Agents s ++ new /\ (length new <= n)%nat.

End Predicates.

(** ** Contracts of the collaborators *)

Section Contracts.
Context {D : Domain} {C : Collaborators}.

(** The indices of a sequence of calls of [swap] are indices of a slice of
    length [n]. *)
Definition swaps_in_range (swaps : list (nat * nat)) (n : nat) : Prop :=
  Forall (fun p => (fst p < n)%nat /\ (snd p < n)%nat) swaps.

(** [rand.Shuffle(n, swap)] calls [swap(i, j)] with [0 <= j <= i < n]
    only. *)
Definition Shuffle_in_range : Prop :=
  forall (r : Rng) (n : nat), swaps_in_range (fst (Shuffle r n)) n.

(** A message that carries the handler of [Sim.createMiner] has the
    parameters [Sim.createMiner] gives it. *)
Definition params_match (msg : message) : Prop :=
  isCreateMiner msg = true ->
  exists owner worker proof, Params msg = CreateMinerParams owner worker proof.


End Contracts.

(** ** The sampler in the words of the specification *)

Section Quantile.
Context {D : Domain} {C : Collaborators}.







(** The rate of [WinCount]: [5 * minerPower / totalPower] as [lambdaR.Float64()]
    gives it, the nearest binary64 number, an infinity when there is none. *)
Definition rate (minerPower totalPower : Z) : option float :=
  match Rat.SetFrac minerPower totalPower with
  | Some q => Some (Rat.Float64 (Rat.Mul q (Rat.mk 5 1)))
  | None => None
  end.

End Quantile.

(** ** The balance of an account *)

Section Balance.
Context {D : Domain} {C : Collaborators}.

(** Modelled from the spec: package [vm], which holds the balances of the
    actors, is not among the sources, and the engine calls nothing of it
    that reads a balance.  The specification speaks of "that account's
    entire balance"; a ledger with balances gives the balance it holds for
    an address. *)
Class Balances : Type := { balanceOf : VM -> Address -> Z }.

(** From the specification: the create-producer request of a tick carries
    "that account's entire balance as its transferred value". *)
Definition carries_entire_balance {B : Balances} (s : Sim) : Prop :=
  forall s0 batch msg,
    produceBatch s = (s0, inl batch) ->
    In msg batch -> isCreateMiner msg = true ->
    Value msg = balanceOf (v s) (From_ msg).


End Balance.

(** ** Executions *)

(** The engine in an environment whose calls need not be functions: a call
    into the packages [vm], [power], [math/rand] or into agent code has a
    set of possible results.  The code of the engine is that of Section
    [Engine], call by call; fields of the state structures, the type
    assertion on an agent and the functions of package [math] stay
    functions. *)
Section Executions.
Context {D : Domain} {C : Collaborators}.

(** The results a call may have. *)
Definition Results (A : Type) : Type := A -> Prop.

Definition only {A : Type} (a : A) : Results A := fun x => x = a.

Definition andThen {A B : Type} (m : Results A) (f : A -> Results B) : Results B :=
  fun b => exists a, m a /\ f a b.

(** A call all of whose results are the same. *)
Definition single_valued {A : Type} (m : Results A) : Prop :=
  forall a b, m a -> m b -> a = b.

Record Environment : Type := {
  envNewVM : Store -> Results VM;
  envCreateAccounts : VM -> Z -> Z -> Z -> Results (list Address * VM);
  envGetEpoch : VM -> Results Z;
  envApplyMessage : VM -> Address -> Address -> Z -> Z -> MethodParams ->
                    Results (VM * (MethodReturn * Z));
  envGetLogs : VM -> Results (list string);
  envGetCallStats : VM -> Results CallStats;
  envWithEpoch : VM -> Z -> Results (VM * option Err);
  envGetRewardState : VM -> Results (RewardState + Err);
  envGetPowerState : VM -> Results (PowerState + Err);
  envGetClaim : PowerState -> VM -> Address -> Results (option Claim + Err);
  envMeetsConsensusMinimum : PowerState -> VM -> Address -> Results (bool + Err);
  envNewRand : Z -> Results Rng;
  envFloat32 : Rng -> Results (float * Rng);
  envFloat64 : Rng -> Results (float * Rng);
  envShuffle : Rng -> nat -> Results (list (nat * nat) * Rng);
  envAgentTick : Agent -> VM -> AgentHeap * Rng ->
                 Results ((AgentHeap * Rng) * (list (message_of Callback) + Err));
  envNewMinerAgent : Address -> Address -> Address -> Address -> MinerAgentConfig ->
                     AgentHeap * Rng -> Results (Agent * (AgentHeap * Rng));
  envRunCallback : Callback -> VM -> message -> MethodReturn -> AgentHeap * Rng ->
                   Results ((AgentHeap * Rng) * option Err)
}.

(** An environment in which a call is determined by its arguments: the
    ledger and the agents by the state they are called on, a draw by the
    state of the generator, the generator by its seed. *)
Record deterministic (E : Environment) : Prop := {
  det_NewVM : forall st, single_valued (envNewVM E st);
  det_CreateAccounts : forall vm n b seed, single_valued (envCreateAccounts E vm n b seed);
  det_GetEpoch : forall vm, single_valued (envGetEpoch E vm);
  det_ApplyMessage : forall vm from to value method params,
      single_valued (envApplyMessage E vm from to value method params);
  det_GetLogs : forall vm, single_valued (envGetLogs E vm);
  det_GetCallStats : forall vm, single_valued (envGetCallStats E vm);
  det_WithEpoch : forall vm e, single_valued (envWithEpoch E vm e);
  det_GetRewardState : forall vm, single_valued (envGetRewardState E vm);
  det_GetPowerState : forall vm, single_valued (envGetPowerState E vm);
  det_GetClaim : forall st vm a, single_valued (envGetClaim E st vm a);
  det_MeetsConsensusMinimum : forall st vm a,
      single_valued (envMeetsConsensusMinimum E st vm a);
  det_NewRand : forall seed, single_valued (envNewRand E seed);
  det_Float32 : forall r, single_valued (envFloat32 E r);
  det_Float64 : forall r, single_valued (envFloat64 E r);
  det_Shuffle : forall r n, single_valued (envShuffle E r n);
  det_AgentTick : forall agent vm w, single_valued (envAgentTick E agent vm w);
  det_NewMinerAgent : forall owner worker idAddress robustAddress cfg w,
      single_valued (envNewMinerAgent E owner worker idAddress robustAddress cfg w);
  det_RunCallback : forall cb vm msg ret w, single_valued (envRunCallback E cb vm msg ret w)
}.

(** Every result a call has in [E1] it has in [E2]. *)
Record included (E1 E2 : Environment) : Prop := {
  inc_NewVM : forall st x, envNewVM E1 st x -> envNewVM E2 st x;
  inc_CreateAccounts : forall vm n b seed x,
      envCreateAccounts E1 vm n b seed x -> envCreateAccounts E2 vm n b seed x;
  inc_GetEpoch : forall vm x, envGetEpoch E1 vm x -> envGetEpoch E2 vm x;
  inc_ApplyMessage : forall vm from to value method params x,
      envApplyMessage E1 vm from to value method params x ->
      envApplyMessage E2 vm from to value method params x;
  inc_GetLogs : forall vm x, envGetLogs E1 vm x -> envGetLogs E2 vm x;
  inc_GetCallStats : forall vm x, envGetCallStats E1 vm x -> envGetCallStats E2 vm x;
  inc_WithEpoch : forall vm e x, envWithEpoch E1 vm e x -> envWithEpoch E2 vm e x;
  inc_GetRewardState : forall vm x, envGetRewardState E1 vm x -> envGetRewardState E2 vm x;
  inc_GetPowerState : forall vm x, envGetPowerState E1 vm x -> envGetPowerState E2 vm x;
  inc_GetClaim : forall st vm a x, envGetClaim E1 st vm a x -> envGetClaim E2 st vm a x;
  inc_MeetsConsensusMinimum : forall st vm a x,
      envMeetsConsensusMinimum E1 st vm a x -> envMeetsConsensusMinimum E2 st vm a x;
  inc_NewRand : forall seed x, envNewRand E1 seed x -> envNewRand E2 seed x;
  inc_Float32 : forall r x, envFloat32 E1 r x -> envFloat32 E2 r x;
  inc_Float64 : forall r x, envFloat64 E1 r x -> envFloat64 E2 r x;
  inc_Shuffle : forall r n x, envShuffle E1 r n x -> envShuffle E2 r n x;
  inc_AgentTick : forall agent vm w x,
      envAgentTick E1 agent vm w x -> envAgentTick E2 agent vm w x;
  inc_NewMinerAgent : forall owner worker idAddress robustAddress cfg w x,
      envNewMinerAgent E1 owner worker idAddress robustAddress cfg w x ->
      envNewMinerAgent E2 owner worker idAddress robustAddress cfg w x;
  inc_RunCallback : forall cb vm msg ret w x,
      envRunCallback E1 cb vm msg ret w x -> envRunCallback E2 cb vm msg ret w x
}.

(** The environment in which every call has the one result the
    collaborators [C] give it. *)
Definition functions : Environment := {|
  envNewVM := fun st => only (NewCustomStoreVMWithSingletons st);
  envCreateAccounts := fun vm n b seed => only (CreateAccounts vm n b seed);
  envGetEpoch := fun vm => only (GetEpoch vm);
  envApplyMessage := fun vm from to value method params =>
    only (ApplyMessage vm from to value method params);
  envGetLogs := fun vm => only (GetLogs vm);
  envGetCallStats := fun vm => only (GetCallStats vm);
  envWithEpoch := fun vm e => only (WithEpoch vm e);
  envGetRewardState := fun vm => only (GetRewardState vm);
  envGetPowerState := fun vm => only (GetPowerState vm);
  envGetClaim := fun st vm a => only (GetClaim st vm a);
  envMeetsConsensusMinimum := fun st vm a =>
    only (MinerNominalPowerMeetsConsensusMinimum st vm a);
  envNewRand := fun seed => only (NewRand seed);
  envFloat32 := fun r => only (Float32 r);
  envFloat64 := fun r => only (Float64 r);
  envShuffle := fun r n => only (Shuffle r n);
  envAgentTick := fun agent vm w => only (agentTick agent vm w);
  envNewMinerAgent := fun owner worker idAddress robustAddress cfg w =>
    only (NewMinerAgent owner worker idAddress robustAddress cfg w);
  envRunCallback := fun cb vm msg ret w => only (runCallback cb vm msg ret w)
|}.

Variable E : Environment.

(** [Sim.WinCount]: the one call is the draw [s.rnd.Float64()]. *)
Definition WinCount_in (fuel : nat) (r : Rng) (minerPower totalPower : Z)
    : Results (Rng * Run Z) :=
  match Rat.SetFrac minerPower totalPower with
  | None => only (r, Panic)
  | Some lambdaR =>
      let lambdaR := Rat.Mul lambdaR (Rat.mk 5 1) in
      let lambda := Rat.Float64 lambdaR in
      andThen (envFloat64 E r) (fun '(h, r') =>
        match poissonPMF fuel lambda 0 with
        | Returned p0 => only (r', WinCount_loop fuel fuel lambda h (1 - p0)%float 0)
        | Panic => only (r', Panic)
        | Timeout => only (r', Timeout)
        end)
  end.

(** The loop of [ComputePowerTable]: [st.GetClaim] and
    [st.MinerNominalPowerMeetsConsensusMinimum] are calls. *)
Fixpoint ComputePowerTable_loop_in (st : PowerState) (vm : VM) (h : AgentHeap)
    (agents : list Agent) (pt : powerTable) : Results (powerTable * option Err) :=
  match agents with
  | [] => only (pt, None)
  | agent :: rest =>
      match asMinerAgent agent h with
      | Some idAddress =>
          andThen (envGetClaim E st vm idAddress) (fun found =>
            match found with
            | inr err => only (pt, Some err)
            | inl None => ComputePowerTable_loop_in st vm h rest pt
            | inl (Some claim) =>
                andThen (envMeetsConsensusMinimum E st vm idAddress) (fun sufficient =>
                  match sufficient with
                  | inr err => only (pt, Some err)
                  | inl true =>
                      ComputePowerTable_loop_in st vm h rest
                        (appendMinerPower pt
                           {| addr := idAddress; qaPower := QualityAdjPower claim |})
                  | inl false => ComputePowerTable_loop_in st vm h rest pt
                  end)
            end)
      | None => ComputePowerTable_loop_in st vm h rest pt
      end
  end.

(** [ComputePowerTable]: the two calls of [v.GetState]. *)
Definition ComputePowerTable_in (vm : VM) (h : AgentHeap) (agents : list Agent)
    : Results (powerTable * option Err) :=
  andThen (envGetRewardState E vm) (fun rw =>
    match rw with
    | inr err => only (emptyPowerTable, Some err)
    | inl rwst =>
        andThen (envGetPowerState E vm) (fun ps =>
          match ps with
          | inr err => only (emptyPowerTable, Some err)
          | inl st =>
              ComputePowerTable_loop_in st vm h agents
                {| blockReward := ThisEpochReward rwst;
                   totalQAPower := TotalQualityAdjPower st;
                   minerPower := [] |}
          end)
    end).

(** [NewSim]: the ledger, the accounts and the generator of the seed. *)
Definition NewSim_in (store : Store) (config : SimConfig) : Results Sim :=
  andThen (envNewVM E store) (fun vm =>
  andThen (envCreateAccounts E vm (AccountCount config) (AccountInitialBalance config)
             (Seed config)) (fun '(accounts, vm) =>
  andThen (envNewRand E (Seed config)) (fun r =>
    only {| Config := config; Accounts := accounts; Agents := []; v := vm;
            rnd := r; statsByMethod := None; heap := emptyHeap |}))).

(** [s.v.ApplyMessage] on a request. *)
Definition apply_in (vm : VM) (r : Request) : Results (VM * (MethodReturn * Z)) :=
  envApplyMessage E vm (reqFrom r) (reqTo r) (reqValue r) (reqMethod r) (reqParams r).

(** [for _, agent := range s.Agents]: every [agent.Tick] is a call. *)
Fixpoint tickAgents_in (agents : list Agent) (vm : VM) (w : AgentHeap * Rng)
    (blockMessages : list message)
    : Results ((AgentHeap * Rng) * (list message + Err)) :=
  match agents with
  | [] => only (w, inl blockMessages)
  | agent :: rest =>
      andThen (envAgentTick E agent vm w) (fun '(w', res) =>
        match res with
        | inr err => only (w', inr err)
        | inl msgs => tickAgents_in rest vm w' (blockMessages ++ map liftMessage msgs)
        end)
  end.

(** "add at most 1 miner per epoch": the draw [s.rnd.Float32()] is made
    only when the agent set is smaller than the account set. *)
Definition addMiner_in (s : Sim) (blockMessages : list message)
    : Results (Rng * Run (list message)) :=
  if (length (Agents s) <? length (Accounts s))%nat then
    andThen (envFloat32 E (rnd s)) (fun '(f, r) =>
      if PrimFloat.ltb f (CreateMinerProbability (Config s)) then
        match Accounts s !! length (Agents s) with
        | Some owner =>
            only (r, Returned (blockMessages ++ [createMiner s owner (newMinerConfig s)]))
        | None => only (r, Panic)
        end
      else only (r, Returned blockMessages))
  else only (rnd s, Returned blockMessages).

(** The first half of [Tick]; [s.rnd.Shuffle] is a call. *)
Definition produceBatch_in (s : Sim) : Results (Sim * (list message + Outcome)) :=
  andThen (tickAgents_in (Agents s) (v s) (heap s, rnd s) []) (fun '(w, res) =>
    match res with
    | inr err => only (set_world s w, inr (Failed (External err)))
    | inl blockMessages =>
        let s := set_world s w in
        andThen (addMiner_in s blockMessages) (fun '(r, added) =>
          match added with
          | Returned blockMessages =>
              let s := set_rnd s r in
              andThen (envShuffle E (rnd s) (length blockMessages)) (fun '(swaps, r) =>
                let s := set_rnd s r in
                match applySwaps swaps blockMessages with
                | Some blockMessages => only (s, inl blockMessages)
                | None => only (s, inr Panicked)
                end)
          | Panic => only (set_rnd s r, inr Panicked)
          | Timeout => only (set_rnd s r, inr OutOfFuel)
          end)
    end).

(** The return handlers: [NewMinerAgent] and the handlers of agents are
    calls. *)
Definition runHandler_in (h : returnHandler) (s : Sim) (msg : message) (ret : MethodReturn)
    : Results (Sim * Outcome) :=
  match h with
  | createMinerHandler cfg =>
      match ret with
      | CreateMinerReturn idAddress robustAddress =>
          match Params msg with
          | CreateMinerParams owner worker _ =>
              andThen (envNewMinerAgent E owner worker idAddress robustAddress cfg
                         (heap s, rnd s)) (fun '(miner, w) =>
                only (set_Agents (set_world s w) (Agents s ++ [miner]), Done))
          | _ => only (s, Panicked)
          end
      | _ => only (s, Failed (WrongReturnType ret))
      end
  | agentHandler cb =>
      andThen (envRunCallback E cb (v s) msg ret (heap s, rnd s)) (fun '(w, err) =>
        match err with
        | None => only (set_world s w, Done)
        | Some err => only (set_world s w, Failed (External err))
        end)
  end.

(** [for _, msg := range blockMessages]. *)
Fixpoint runMessages_in (msgs : list message) (s : Sim)
    : Results (list Applied * Sim * Outcome) :=
  match msgs with
  | [] => only ([], s, Done)
  | msg :: rest =>
      andThen (apply_in (v s) (request_of msg)) (fun '(vm, (ret, code)) =>
        let s := set_v s vm in
        if negb (code =? exitcode_Ok) then
          andThen (envGetLogs E vm) (fun logs =>
            only ([(Batch, request_of msg)], s, Failed (MessageFailed code msg logs)))
        else
          andThen (match ReturnHandler msg with
                   | Some h => runHandler_in h s msg ret
                   | None => only (s, Done)
                   end) (fun '(s, out) =>
            match out with
            | Done =>
                andThen (runMessages_in rest s) (fun '(tr, s, out) =>
                  only ((Batch, request_of msg) :: tr, s, out))
            | _ => only ([(Batch, request_of msg)], s, out)
            end))
  end.

(** [Sim.rewardMiner]. *)
Definition rewardMiner_in (s : Sim) (miner : Address) (wins : Z)
    : Results (list Applied * Sim * Outcome) :=
  if wins <? 1 then only ([], s, Done)
  else
    andThen (apply_in (v s) (rewardRequest miner wins)) (fun '(vm, (_, code)) =>
      let s := set_v s vm in
      if negb (code =? exitcode_Ok) then
        andThen (envGetLogs E vm) (fun logs =>
          only ([(Reward, rewardRequest miner wins)], s, Failed (RewardFailed code logs)))
      else only ([(Reward, rewardRequest miner wins)], s, Done)).

(** [for _, miner := range powerTable.minerPower]. *)
Fixpoint applyBlockRewards_in (fuel : nat) (total : Z) (miners : list minerPowerTable)
    (s : Sim) : Results (list Applied * Sim * Outcome) :=
  match miners with
  | [] => only ([], s, Done)
  | miner :: rest =>
      if 0 <? total then
        andThen (WinCount_in fuel (rnd s) (qaPower miner) total) (fun '(r, wins) =>
          match wins with
          | Returned wins =>
              andThen (rewardMiner_in (set_rnd s r) (addr miner) wins) (fun '(tr, s, out) =>
                match out with
                | Done =>
                    andThen (applyBlockRewards_in fuel total rest s) (fun '(tr', s, out) =>
                      only (tr ++ tr', s, out))
                | _ => only (tr, s, out)
                end)
          | Panic => only ([], set_rnd s r, Panicked)
          | Timeout => only ([], set_rnd s r, OutOfFuel)
          end)
      else applyBlockRewards_in fuel total rest s
  end.

(** "run cron", "store last stats" and the epoch advance:
    [GetCallStats], [GetEpoch] and [WithEpoch] are calls. *)
Definition endEpoch_in (s : Sim) : Results (list Applied * Sim * Outcome) :=
  andThen (apply_in (v s) cronRequest) (fun '(vm, (_, code)) =>
    let s := set_v s vm in
    if negb (code =? exitcode_Ok) then
      andThen (envGetLogs E vm) (fun logs =>
        only ([(Cron, cronRequest)], s, Failed (CronFailed code logs)))
    else
      andThen (envGetCallStats E (v s)) (fun stats =>
        let s := set_statsByMethod s (Some stats) in
        andThen (envGetEpoch E (v s)) (fun epoch =>
          andThen (envWithEpoch E (v s) (Int64.add epoch 1)) (fun '(vm, err) =>
            only ([(Cron, cronRequest)], set_v s vm,
                  match err with Some e => Failed (External e) | None => Done end))))).

(** [Sim.Tick]. *)
Definition Tick_in (fuel : nat) (s : Sim) : Results (list Applied * Sim * Outcome) :=
  andThen (ComputePowerTable_in (v s) (heap s) (Agents s)) (fun '(powerTable, err) =>
    match err with
    | Some err => only ([], s, Failed (External err))
    | None =>
        andThen (produceBatch_in s) (fun '(s, res) =>
          match res with
          | inr out => only ([], s, out)
          | inl blockMessages =>
              andThen (runMessages_in blockMessages s) (fun '(tr1, s, out) =>
                match out with
                | Done =>
                    andThen (applyBlockRewards_in fuel (totalQAPower powerTable)
                               (minerPower powerTable) s) (fun '(tr2, s, out) =>
                      match out with
                      | Done =>
                          andThen (endEpoch_in s) (fun '(tr3, s, out) =>
                            only (tr1 ++ tr2 ++ tr3, s, out))
                      | _ => only (tr1 ++ tr2, s, out)
                      end)
                | _ => only (tr1, s, out)
                end)
          end)
    end).

(** [n] calls of [Tick], stopped by the first that does not return [nil]. *)
Fixpoint run_in (fuel n : nat) (s : Sim) : Results (list (list Applied) * Sim * Outcome) :=
  match n with
  | O => only ([], s, Done)
  | S n' =>
      andThen (Tick_in fuel s) (fun '(tr, s, out) =>
        match out with
        | Done =>
            andThen (run_in fuel n' s) (fun '(trs, s, out) => only (tr :: trs, s, out))
        | _ => only ([tr], s, out)
        end)
  end.

(** A simulation: the engine of [NewSim], the agents the harness adds, and
    [n] calls of [Tick]. *)
Definition simulate (fuel n : nat) (store : Store) (config : SimConfig)
    (harness : Sim -> Sim) : Results (list (list Applied) * Sim * Outcome) :=
  andThen (NewSim_in store config) (fun s => run_in fuel n (harness s)).

End Executions.

(** ** A small world to run the engine in *)

(** A ledger that counts its actors, a linear congruential generator and
    three kinds of agents: enough to evaluate [Tick] on concrete engines. *)
Module Sample.

Record ledger : Type := {
  epoch : Z;
  nextID : Z;
  claims : list (Z * Z);      (* miner, quality-adjusted power *)
  logs : list string;
  calls : nat
}.

Inductive agent : Type :=
  | MinerAgent (idAddress : Z)
  | Sender (target : Z)       (* sends one unit to [target] every epoch *)
  | Broken.                   (* its Tick returns an error *)

#[export] Instance domain : Domain := {|
  Address := Z;
  Err := string;
  VM := ledger;
  Store := unit;
  Rng := Z;
  Agent := agent;
  AgentHeap := nat;           (* the number of callbacks run so far *)
  Callback := unit;
  CallStats := nat;
  RewardState := Z;
  PowerState := list (Z * Z);
  Claim := Z;
  ActorParams := unit;
  ActorReturn := unit;
  SystemActorAddr := 0;
  CronActorAddr := 3;
  RewardActorAddr := 2;
  StoragePowerActorAddr := 4;
  MethodsCron_EpochTick := 2;
  MethodsReward_AwardBlockReward := 2;
  MethodsPower_CreateMiner := 2;
  RegisteredSealProof_StackedDrg32GiBV1_1 := 8;
  emptyHeap := O
|}.

Definition genesis : ledger :=
  {| epoch := 0; nextID := 1000; claims := []; logs := []; calls := O |}.

Definition count (l : ledger) : ledger :=
  {| epoch := epoch l; nextID := nextID l; claims := claims l; logs := logs l;
     calls := S (calls l) |}.

(** The address 99 holds no actor: a request to it fails with code 1 and
    leaves a line in the log. *)
Definition applyMessage (l : ledger) (from to value method : Z) (p : MethodParams)
    : ledger * (MethodReturn * Z) :=
  if to =? 99 then
    ({| epoch := epoch l; nextID := nextID l; claims := claims l;
        logs := logs l ++ ["no such actor"%string]; calls := calls l |},
     (NilReturn, 1))
  else
    match p with
    | CreateMinerParams _ _ _ =>
        ({| epoch := epoch l; nextID := nextID l + 1;
            claims := claims l ++ [(nextID l, 10)]; logs := logs l;
            calls := S (calls l) |},
         (CreateMinerReturn (nextID l) (nextID l + 5000), 0))
    | _ => (count l, (NilReturn, 0))
    end.

Fixpoint findClaim (cs : list (Z * Z)) (a : Z) : option Z :=
  match cs with
  | [] => None
  | (m, p) :: rest => if m =? a then Some p else findClaim rest a
  end.

Definition totalPower (cs : list (Z * Z)) : Z := fold_right (fun c acc => snd c + acc) 0 cs.

Definition next (r : Z) : Z := (r * 6364136223846793005 + 1442695040888963407) mod 2 ^ 64.

Definition unit_float (r : Z) : float :=
  (PrimFloat.of_uint63 (Uint63.of_Z (r / 2 ^ 11)) / 9007199254740992)%float.

(** The swaps of a Fisher-Yates shuffle of [S i] elements. *)
Fixpoint shuffle (i : nat) (r : Z) : list (nat * nat) * Z :=
  match i with
  | O => ([], r)
  | S i' =>
      let r := next r in
      let j := Z.to_nat (r mod Z.of_nat (S i)) in
      let (rest, r) := shuffle i' r in
      ((i, j) :: rest, r)
  end.

Fixpoint series (n : nat) (x term acc : float) (k : float) : float :=
  match n with
  | O => acc
  | S n' => series n' x (term * x / k)%float (acc + term)%float (k + 1)%float
  end.

(** A truncated power series, good enough for the rates of the engine. *)
Definition exp (x : float) : float :=
  (1 / series 60 (- x) 1 0 1)%float.

Fixpoint pow_loop (n : nat) (x y acc : float) : float :=
  match n with
  | O => acc
  | S n' => if PrimFloat.leb 1 y then pow_loop n' x (y - 1)%float (acc * x)%float else acc
  end.

Definition pow (x y : float) : float := pow_loop 400 x y 1%float.

Definition tick (a : agent) (l : ledger) (w : nat * Z)
    : (nat * Z) * (list (message_of unit) + string) :=
  match a with
  | MinerAgent id =>
      (w, inl [ {| From_ := id; To := 4; Value := 0; Method := 7;
                   Params := NilParams; ReturnHandler := Some tt |} ])
  | Sender target =>
      ((fst w, next (snd w)),
       inl [ {| From_ := 100; To := target; Value := 1; Method := 0;
                Params := NilParams; ReturnHandler := None |} ])
  | Broken => (w, inr "agent failed"%string)
  end.

#[export] Instance collaborators : Collaborators := {|
  NewCustomStoreVMWithSingletons := fun _ => genesis;
  CreateAccounts := fun l n _ _ =>
    (map (fun i => 100 + Z.of_nat i) (seq 0 (Z.to_nat n)), l);
  GetEpoch := epoch;
  ApplyMessage := applyMessage;
  GetLogs := logs;
  GetCallStats := calls;
  WithEpoch := fun l e =>
    ({| epoch := e; nextID := nextID l; claims := claims l; logs := logs l;
        calls := O |}, None);
  GetRewardState := fun _ => inl 7;
  ThisEpochReward := fun r => r;
  GetPowerState := fun l => inl (claims l);
  TotalQualityAdjPower := totalPower;
  GetClaim := fun cs _ a => inl (findClaim cs a);
  QualityAdjPower := fun p => p;
  MinerNominalPowerMeetsConsensusMinimum := fun cs _ a =>
    inl (match findClaim cs a with Some p => 10 <=? p | None => false end);
  NewRand := fun seed => seed mod 2 ^ 64;
  Float32 := fun r => (unit_float (next r), next r);
  Float64 := fun r => (unit_float (next r), next r);
  Shuffle := fun r n => shuffle (Nat.pred n) r;
  Exp := exp;
  Pow := pow;
  agentTick := tick;
  asMinerAgent := fun a _ => match a with MinerAgent id => Some id | _ => None end;
  NewMinerAgent := fun _ _ id _ _ w => (MinerAgent id, w);
  runCallback := fun _ _ _ _ w => ((S (fst w), snd w), None)
|}.

Definition config : SimConfig :=
  {| AccountCount := 3; AccountInitialBalance := 1000; Seed := 42;
     CreateMinerProbability := 1%float |}.

(** The engine of the scenario of the specification: three accounts of
    1000 units, seed 42, a producer created in every epoch. *)
Definition sim0 : Sim := NewSim tt config.

(** The engine after one and after two epochs. *)
Definition sim1 : Sim := snd (fst (Tick 100 sim0)).
Definition sim2 : Sim := snd (fst (Tick 100 sim1)).

(** An engine whose second agent fails. *)
Definition simBroken : Sim := set_Agents sim1 (Agents sim1 ++ [Broken]).

(** An engine with an agent that sends to the address without actor. *)
Definition simFailing : Sim := set_Agents sim1 (Agents sim1 ++ [Sender 99]).

(** The message of [Sender 99] as the engine sees it, and the shuffled
    batch of the epoch in which it fails. *)
Definition failingMessage : message :=
  {| From_ := 100; To := 99; Value := 1; Method := 0;
     Params := NilParams; ReturnHandler := None |}.

Definition failingBatch : list message :=
  match snd (produceBatch simFailing) with
  | inl batch => batch
  | inr _ => []
  end.

(** An engine that differs from [sim0] in the stored statistics only. *)
Definition sim0' : Sim := set_statsByMethod sim0 (Some 7%nat).

End Sample.

(** Further engines of the sample world. *)
Module SampleMore.
Import Sample.

(** An engine without accounts, and so without agents for ever. *)
Definition simEmpty : Sim :=
  NewSim tt {| AccountCount := 0; AccountInitialBalance := 1000; Seed := 7;
               CreateMinerProbability := 1%float |}.

(** The shuffled batch of the epoch that starts at [s]. *)
Definition batchOf (s : Sim) : list message :=
  match snd (produceBatch s) with
  | inl batch => batch
  | inr _ => []
  end.

(** The first message of [sim0]: the creation of a miner for the account
    100. *)
Definition firstMessage : message := createMiner sim0 100 (newMinerConfig sim0).

(** A power table entry. *)
Definition someMiner : minerPowerTable := {| addr := 1000; qaPower := 10 |}.

End SampleMore.

(** A second small world: the ledger of [Sample] with a balance for every
    address.  A request moves its value from the sender to the receiver. *)
Module Bank.

Record ledger : Type := {
  base : Sample.ledger;
  balances : list (Z * Z)     (* address, balance *)
}.

#[export] Instance domain : Domain := {|
  Address := Z;
  Err := string;
  VM := ledger;
  Store := unit;
  Rng := Z;
  Agent := Sample.agent;
  AgentHeap := nat;
  Callback := unit;
  CallStats := nat;
  RewardState := Z;
  PowerState := list (Z * Z);
  Claim := Z;
  ActorParams := unit;
  ActorReturn := unit;
  SystemActorAddr := 0;
  CronActorAddr := 3;
  RewardActorAddr := 2;
  StoragePowerActorAddr := 4;
  MethodsCron_EpochTick := 2;
  MethodsReward_AwardBlockReward := 2;
  MethodsPower_CreateMiner := 2;
  RegisteredSealProof_StackedDrg32GiBV1_1 := 8;
  emptyHeap := O
|}.

Fixpoint balance (bs : list (Z * Z)) (a : Z) : Z :=
  match bs with
  | [] => 0
  | (b, x) :: rest => if b =? a then x else balance rest a
  end.

Fixpoint credit (bs : list (Z * Z)) (a amount : Z) : list (Z * Z) :=
  match bs with
  | [] => [(a, amount)]
  | (b, x) :: rest =>
      if b =? a then (b, x + amount) :: rest else (b, x) :: credit rest a amount
  end.

(** A request moves its value from the sender to the receiver; the
    creation of a miner registers a claim as in [Sample]. *)
Definition applyMessage (l : ledger) (from to value method : Z) (p : MethodParams)
    : ledger * (MethodReturn * Z) :=
  let bs := credit (credit (balances l) from (- value)) to value in
  let b := base l in
  match p with
  | CreateMinerParams _ _ _ =>
      ({| base := {| Sample.epoch := Sample.epoch b;
                     Sample.nextID := Sample.nextID b + 1;
                     Sample.claims := Sample.claims b ++ [(Sample.nextID b, 10)];
                     Sample.logs := Sample.logs b;
                     Sample.calls := S (Sample.calls b) |};
          balances := bs |},
       (CreateMinerReturn (Sample.nextID b) (Sample.nextID b + 5000), 0))
  | _ => ({| base := Sample.count b; balances := bs |}, (NilReturn, 0))
  end.

Definition tick (a : Sample.agent) (l : ledger) (w : nat * Z)
    : (nat * Z) * (list (message_of unit) + string) :=
  match a with
  | Sample.MinerAgent id =>
      (w, inl [ {| From_ := id; To := 4; Value := 0; Method := 7;
                   Params := NilParams; ReturnHandler := Some tt |} ])
  | Sample.Sender target =>
      ((fst w, Sample.next (snd w)),
       inl [ {| From_ := 100; To := target; Value := 1; Method := 0;
                Params := NilParams; ReturnHandler := None |} ])
  | Sample.Broken => (w, inr "agent failed"%string)
  end.

#[export] Instance collaborators : Collaborators := {|
  NewCustomStoreVMWithSingletons := fun _ => {| base := Sample.genesis; balances := [] |};
  CreateAccounts := fun l n b _ =>
    let accounts := map (fun i => 100 + Z.of_nat i) (seq 0 (Z.to_nat n)) in
    (accounts,
     {| base := base l; balances := balances l ++ map (fun a => (a, b)) accounts |});
  GetEpoch := fun l => Sample.epoch (base l);
  ApplyMessage := applyMessage;
  GetLogs := fun l => Sample.logs (base l);
  GetCallStats := fun l => Sample.calls (base l);
  WithEpoch := fun l e =>
    ({| base := {| Sample.epoch := e; Sample.nextID := Sample.nextID (base l);
                   Sample.claims := Sample.claims (base l);
                   Sample.logs := Sample.logs (base l); Sample.calls := O |};
        balances := balances l |}, None);
  GetRewardState := fun _ => inl 7;
  ThisEpochReward := fun r => r;
  GetPowerState := fun l => inl (Sample.claims (base l));
  TotalQualityAdjPower := Sample.totalPower;
  GetClaim := fun cs _ a => inl (Sample.findClaim cs a);
  QualityAdjPower := fun p => p;
  MinerNominalPowerMeetsConsensusMinimum := fun cs _ a =>
    inl (match Sample.findClaim cs a with Some p => 10 <=? p | None => false end);
  NewRand := fun seed => seed mod 2 ^ 64;
  Float32 := fun r => (Sample.unit_float (Sample.next r), Sample.next r);
  Float64 := fun r => (Sample.unit_float (Sample.next r), Sample.next r);
  Shuffle := fun r n => Sample.shuffle (Nat.pred n) r;
  Exp := Sample.exp;
  Pow := Sample.pow;
  agentTick := tick;
  asMinerAgent := fun a _ => match a with Sample.MinerAgent id => Some id | _ => None end;
  NewMinerAgent := fun _ _ id _ _ w => (Sample.MinerAgent id, w);
  runCallback := fun _ _ _ _ w => ((S (fst w), snd w), None)
|}.

#[export] Instance balanceOf_ledger : Balances :=
  {| balanceOf := fun l a => balance (balances l) a |}.

Definition config : SimConfig :=
  {| AccountCount := 3; AccountInitialBalance := 1000; Seed := 42;
     CreateMinerProbability := 1%float |}.


Definition batchOf (s : Sim) : list message :=
  match snd (produceBatch s) with
  | inl batch => batch
  | inr _ => []
  end.

End Bank.

(** A sample environment in which one draw is not determined. *)
Module Loose.
Import Sample.

(** The sample world with a [Float32] that returns the number [f]. *)
Definition loaded (f : float) : Collaborators := {|
  NewCustomStoreVMWithSingletons := NewCustomStoreVMWithSingletons;
  CreateAccounts := CreateAccounts;
  GetEpoch := GetEpoch;
  ApplyMessage := ApplyMessage;
  GetLogs := GetLogs;
  GetCallStats := GetCallStats;
  WithEpoch := WithEpoch;
  GetRewardState := GetRewardState;
  ThisEpochReward := ThisEpochReward;
  GetPowerState := GetPowerState;
  TotalQualityAdjPower := TotalQualityAdjPower;
  GetClaim := GetClaim;
  QualityAdjPower := QualityAdjPower;
  MinerNominalPowerMeetsConsensusMinimum := MinerNominalPowerMeetsConsensusMinimum;
  NewRand := NewRand;
  Float32 := fun r => (f, next r);
  Float64 := Float64;
  Shuffle := Shuffle;
  Exp := Exp;
  Pow := Pow;
  agentTick := agentTick;
  asMinerAgent := asMinerAgent;
  NewMinerAgent := NewMinerAgent;
  runCallback := runCallback
|}.

(** The sample environment with a [Float32] whose number the generator
    does not determine: any number may come, and the generator advances. *)
Definition anyFloat32 : Environment := {|
  envNewVM := envNewVM functions;
  envCreateAccounts := envCreateAccounts functions;
  envGetEpoch := envGetEpoch functions;
  envApplyMessage := envApplyMessage functions;
  envGetLogs := envGetLogs functions;
  envGetCallStats := envGetCallStats functions;
  envWithEpoch := envWithEpoch functions;
  envGetRewardState := envGetRewardState functions;
  envGetPowerState := envGetPowerState functions;
  envGetClaim := envGetClaim functions;
  envMeetsConsensusMinimum := envMeetsConsensusMinimum functions;
  envNewRand := envNewRand functions;
  envFloat32 := fun r x => snd x = next r;
  envFloat64 := envFloat64 functions;
  envShuffle := envShuffle functions;
  envAgentTick := envAgentTick functions;
  envNewMinerAgent := envNewMinerAgent functions;
  envRunCallback := envRunCallback functions
|}.

Definition half : SimConfig :=
  {| AccountCount := 1; AccountInitialBalance := 1000; Seed := 7;
     CreateMinerProbability := 0.5%float |}.

Definition simOne : Sim := NewSim tt half.

End Loose.

(** * Properties *)

(** ** Fixed-width arithmetic *)

Lemma wrap_in_range (z : Z) : Int64.in_range z -> Int64.wrap z = z.
Proof.
  unfold Int64.in_range, Int64.wrap, Int64.min_signed, Int64.max_signed,
    Int64.half_modulus, Int64.modulus.
  intros H. rewrite Z.mod_small by lia. lia.
Qed.

Lemma wrap_of_uint64 (z : Z) : Int64.in_range z -> Int64.wrap (Uint64.of_Z z) = z.
Proof.
  unfold Int64.in_range, Int64.wrap, Uint64.of_Z, Int64.min_signed, Int64.max_signed,
    Int64.half_modulus, Int64.modulus.
  intros H. rewrite Zplus_mod_idemp_l. rewrite Z.mod_small by lia. lia.
Qed.

Lemma uint64_mul_0_r (a : Z) : Uint64.mul a (Uint64.of_Z 0) = 0.
Proof. unfold Uint64.mul, Uint64.of_Z. rewrite Z.mod_0_l by discriminate. now rewrite Z.mul_0_r. Qed.

Lemma uint64_mul_1_r (a : Z) : Uint64.mul (Uint64.of_Z a) (Uint64.of_Z 1) = Uint64.of_Z a.
Proof.
  unfold Uint64.mul, Uint64.of_Z.
  rewrite (Z.mod_small 1) by (unfold Int64.modulus; lia).
  rewrite Z.mul_1_r. apply Z.mod_mod. discriminate.
Qed.

(** ** The multisig actor state *)

Module MultisigFacts.
Import Multisig.

Lemma AmountLocked_expired (st : MultiSigActorState) (e : Z) :
  UnlockDuration st <= e -> AmountLocked st e = Some 0.
Proof.
  intros H. unfold AmountLocked.
  destruct (Z.leb_spec (UnlockDuration st) e); [reflexivity | lia].
Qed.

Lemma AmountLocked_during (st : MultiSigActorState) (e : Z) :
  well_typed st -> 1 <= e < UnlockDuration st -> AmountLocked st e = Some 0.
Proof.
  intros (_ & _ & HU) He. unfold AmountLocked.
  destruct (Z.leb_spec (UnlockDuration st) e); [lia |].
  unfold Int64.sub, Int64.div.
  assert (Hr : Int64.in_range (UnlockDuration st - e)).
  { revert HU. unfold Int64.in_range, Int64.min_signed, Int64.max_signed. lia. }
  rewrite (wrap_in_range _ Hr).
  destruct (Z.eqb_spec (UnlockDuration st) 0); [lia |].
  rewrite Z.quot_small by lia.
  rewrite (wrap_in_range 0) by (unfold Int64.in_range, Int64.min_signed, Int64.max_signed; lia).
  rewrite uint64_mul_0_r. reflexivity.
Qed.

Lemma AmountLocked_start (st : MultiSigActorState) :
  well_typed st -> 1 <= UnlockDuration st -> AmountLocked st 0 = Some (InitialBalance st).
Proof.
  intros (HB & _ & HU) H1. unfold AmountLocked.
  destruct (Z.leb_spec (UnlockDuration st) 0); [lia |].
  unfold Int64.sub, Int64.div. rewrite Z.sub_0_r.
  rewrite (wrap_in_range _ HU).
  destruct (Z.eqb_spec (UnlockDuration st) 0); [lia |].
  rewrite Z.quot_same by lia.
  rewrite (wrap_in_range 1) by (unfold Int64.in_range, Int64.min_signed, Int64.max_signed; lia).
  rewrite uint64_mul_1_r, (wrap_of_uint64 _ HB). reflexivity.
Qed.

(** C9.  For a state whose unlock duration is at least 1, [AmountLocked]
    is 0 at every elapsed epoch from 1 up to the unlock duration (the
    integer quotient of the two epoch counts is 0), the whole initial
    balance at elapsed epoch 0, and 0 from the unlock duration on. *)
Theorem AmountLocked_truncates (st : MultiSigActorState) :
  well_typed st ->
  1 <= UnlockDuration st ->
  (forall e, 1 <= e < UnlockDuration st -> AmountLocked st e = Some 0) /\
  AmountLocked st 0 = Some (InitialBalance st) /\
  (forall e, UnlockDuration st <= e -> AmountLocked st e = Some 0).
Proof.
  intros Hwt HU. split; [| split].
  - intros e He. now apply AmountLocked_during.
  - now apply AmountLocked_start.
  - intros e He. now apply AmountLocked_expired.
Qed.

Lemma wallet_well_typed : well_typed wallet.
Proof.
  unfold well_typed, Int64.in_range, Int64.min_signed, Int64.max_signed; simpl; lia.
Qed.

Lemma AmountLocked_truncates_witness :
  AmountLocked wallet 3 = Some 0 /\ AmountLocked wallet 0 = Some 1000 /\
  AmountLocked wallet 10 = Some 0.
Proof.
  destruct (AmountLocked_truncates wallet wallet_well_typed) as (H1 & H2 & H3).
  - simpl; lia.
  - split; [apply H1; simpl; lia | split; [exact H2 | apply H3; simpl; lia]].
Defined.

(** C10.  [_hasAvailable] returns true exactly when the amount to spend is
    not negative, does not exceed the current balance, and leaves at least
    the amount locked at the elapsed epoch [currEpoch - StartEpoch]. *)
Theorem hasAvailable_iff (st : MultiSigActorState) (currBalance amountToSpend currEpoch : Z) :
  Int64.in_range currBalance ->
  Int64.in_range amountToSpend ->
  (_hasAvailable st currBalance amountToSpend currEpoch = Some true <->
   0 <= amountToSpend /\
   amountToSpend <= currBalance /\
   exists locked,
     AmountLocked st (Int64.sub currEpoch (StartEpoch st)) = Some locked /\
     locked <= currBalance - amountToSpend).
Proof.
  intros Hb Ha. unfold _hasAvailable.
  destruct (Z.ltb_spec amountToSpend 0) as [Hneg | Hpos]; simpl.
  { split; [discriminate | lia]. }
  destruct (Z.ltb_spec currBalance amountToSpend) as [Hlt | Hge]; simpl.
  { split; [discriminate | lia]. }
  assert (Hd : Int64.sub currBalance amountToSpend = currBalance - amountToSpend).
  { unfold Int64.sub. apply wrap_in_range.
    revert Hb Ha. unfold Int64.in_range, Int64.min_signed, Int64.max_signed. lia. }
  rewrite Hd.
  destruct (AmountLocked st (Int64.sub currEpoch (StartEpoch st))) as [locked |].
  - destruct (Z.ltb_spec (currBalance - amountToSpend) locked) as [Hl | Hl].
    + split; [discriminate |]. intros (_ & _ & l & Hl1 & Hl2). inversion Hl1; subst; lia.
    + split; [| reflexivity]. intros _. repeat split; try lia. exists locked. split; [reflexivity | lia].
  - split; [discriminate |]. intros (_ & _ & l & Hl1 & _). discriminate.
Qed.

Lemma hasAvailable_iff_witness :
  _hasAvailable wallet 1000 400 20 = Some true <->
  0 <= 400 /\ 400 <= 1000 /\
  exists locked,
    AmountLocked wallet (Int64.sub 20 (StartEpoch wallet)) = Some locked /\
    locked <= 1000 - 400.
Proof.
  apply (hasAvailable_iff wallet 1000 400 20);
    unfold Int64.in_range, Int64.min_signed, Int64.max_signed; lia.
Defined.

End MultisigFacts.

(** ** The leader-election sampler *)

Lemma float_not_gt_zero (h : float) : PrimFloat.leb 0 h = true -> Float64.gt 0 h = false.
Proof.
  unfold Float64.gt. rewrite leb_spec, ltb_spec. unfold SFleb, SFltb.
  replace (Prim2SF 0) with (S754_zero false) by reflexivity.
  destruct (Prim2SF h) as [sg | sg | | sg m e]; simpl; try destruct sg; simpl;
    try reflexivity; try discriminate.
Qed.

Lemma Rat_Mul_num_0 (x y : Rat.t) : Rat.num x = 0 -> Rat.num (Rat.Mul x y) = 0.
Proof.
  intros H. unfold Rat.Mul. rewrite H, Z.mul_0_l.
  destruct (Z.gcd 0 (Rat.den x * Rat.den y) =? 0); simpl; [reflexivity | apply Zdiv_0_l].
Qed.

Section SamplerFacts.
Context {D : Domain} {C : Collaborators}.

Lemma fact_0 (fuel : nat) : fact fuel (Float64.of_uint64 0) = Returned 1%float.
Proof. unfold fact. destruct fuel; reflexivity. Qed.

Lemma WinCount_loop_exit (n fuel : nat) (lambda h rhs : float) (winCount : Z) :
  Float64.gt rhs h = false -> WinCount_loop n fuel lambda h rhs winCount = Returned winCount.
Proof. intros H. destruct n; simpl; rewrite H; reflexivity. Qed.

(** C8.  With no power, and the documented values [Exp(-0) = 1] and
    [Pow(0, 0) = 1] of package [math], [WinCount] returns 0 whatever number
    [h] of [[0, 1)] it draws, for every total power above 0 and with any
    fuel: the rate is 0, the first right-hand side [1 - P(X = 0)] is 0 and
    the loop body is not entered. *)
Theorem WinCount_zero_power (fuel : nat) (r : Rng) (totalPower : Z) :
  0 < totalPower ->
  Exp (- 0)%float = 1%float ->
  Pow 0%float 0%float = 1%float ->
  PrimFloat.leb 0 (fst (Float64 r)) = true ->
  PrimFloat.ltb (fst (Float64 r)) 1 = true ->
  WinCount fuel r 0 totalPower = (snd (Float64 r), Returned 0).
Proof.
  intros Htot Hexp Hpow Hh0 _. unfold WinCount.
  unfold Rat.SetFrac. destruct (Z.eqb_spec totalPower 0) as [E | _]; [lia |].
  set (x := Rat.mk _ _).
  assert (Hx : Rat.num x = 0).
  { subst x. simpl. rewrite Z.mul_0_r. apply Zdiv_0_l. }
  assert (Hl : Rat.Float64 (Rat.Mul x (Rat.mk 5 1)) = 0%float).
  { unfold Rat.Float64. rewrite (Rat_Mul_num_0 _ _ Hx). reflexivity. }
  rewrite Hl. destruct (Float64 r) as [h r'] eqn:Eh. simpl in Hh0 |- *.
  unfold poissonPMF. rewrite fact_0.
  change (Float64.of_uint64 0) with 0%float.
  rewrite Hexp, Hpow.
  change (1 - 1 * 1 / 1)%float with 0%float.
  rewrite WinCount_loop_exit by now apply float_not_gt_zero.
  reflexivity.
Qed.

End SamplerFacts.

Lemma WinCount_zero_power_witness :
  @WinCount Sample.domain Sample.collaborators 100 42 0 10 =
  (snd (@Float64 Sample.domain Sample.collaborators 42), Returned 0).
Proof.
  apply (WinCount_zero_power (D := Sample.domain) (C := Sample.collaborators) 100 42 10).
  - lia.
  - vm_compute. reflexivity.
  - vm_compute. reflexivity.
  - vm_compute. reflexivity.
  - vm_compute. reflexivity.
Defined.

(** ** The engine *)

Section EngineFacts.
Context {D : Domain} {C : Collaborators}.

Lemma ledger_after_app (vm : VM) (tr1 tr2 : list Applied) :
  ledger_after vm (tr1 ++ tr2) = ledger_after (ledger_after vm tr1) tr2.
Proof. unfold ledger_after. now rewrite map_app, fold_left_app. Qed.

Lemma frame_refl (s : Sim) : frame 0 s s.
Proof. repeat split. exists []. now rewrite app_nil_r. Qed.

Lemma frame_weaken (n m : nat) (s s' : Sim) : (n <= m)%nat -> frame n s s' -> frame m s s'.
Proof. intros Hnm (Hc & Ha & Hs & new & Hn & Hl). repeat split; auto. exists new. split; [auto | lia]. Qed.

Lemma frame_trans (n m : nat) (s1 s2 s3 : Sim) :
  frame n s1 s2 -> frame m s2 s3 -> frame (n + m) s1 s3.
Proof.
  intros (Hc & Ha & Hs & new & Hn & Hl) (Hc' & Ha' & Hs' & new' & Hn' & Hl').
  repeat split; try congruence.
  exists (new ++ new'). split.
  - rewrite Hn', Hn. now rewrite app_assoc.
  - rewrite length_app. lia.
Qed.

Lemma frame_set_v (s : Sim) (vm : VM) : frame 0 s (set_v s vm).
Proof. repeat split. exists []. simpl. now rewrite app_nil_r. Qed.

Lemma frame_set_rnd (s : Sim) (r : Rng) : frame 0 s (set_rnd s r).
Proof. repeat split. exists []. simpl. now rewrite app_nil_r. Qed.

Lemma frame_set_world (s : Sim) (w : AgentHeap * Rng) : frame 0 s (set_world s w).
Proof. repeat split. exists []. simpl. now rewrite app_nil_r. Qed.

(** *** Return handlers *)

Lemma runHandler_v (h : returnHandler) (s s' : Sim) (msg : message) (ret : MethodReturn)
    (out : Outcome) :
  runHandler h s msg ret = (s', out) -> v s' = v s.
Proof.
  unfold runHandler. intros H.
  repeat match type of H with
         | context [match ?x with _ => _ end] => destruct x
         end; inversion H; subst; reflexivity.
Qed.

Lemma runHandler_frame (h : returnHandler) (s s' : Sim) (msg : message) (ret : MethodReturn)
    (out : Outcome) :
  runHandler h s msg ret = (s', out) ->
  frame (match h with createMinerHandler _ => 1 | agentHandler _ => 0 end) s s'.
Proof.
  unfold runHandler. intros H. destruct h as [cfg | cb].
  - repeat match type of H with
           | context [match ?x with _ => _ end] => destruct x
           end; inversion H; subst;
      try (apply (frame_weaken 0); [lia | apply frame_refl]).
    repeat split. eexists. split; [reflexivity | simpl; lia].
  - repeat match type of H with
           | context [match ?x with _ => _ end] => destruct x
           end; inversion H; subst; apply frame_set_world.
Qed.

(** *** The batch loop *)

Lemma runMessages_cons (msg : message) (rest : list message) (s : Sim) :
  runMessages (msg :: rest) s =
  let '(vm, (ret, code)) := apply (v s) (request_of msg) in
  let s := set_v s vm in
  if negb (code =? exitcode_Ok) then
    ([batchEntry msg], s, Failed (MessageFailed code msg (GetLogs vm)))
  else
    let '(s, out) :=
      match ReturnHandler msg with
      | Some h => runHandler h s msg ret
      | None => (s, Done)
      end in
    match out with
    | Done =>
        let '(tr, s, out) := runMessages rest s in
        (batchEntry msg :: tr, s, out)
    | _ => ([batchEntry msg], s, out)
    end.
Proof. reflexivity. Qed.

Lemma runMessages_ledger (msgs : list message) :
  forall s tr s' out,
    runMessages msgs s = (tr, s', out) -> v s' = ledger_after (v s) tr.
Proof.
  induction msgs as [| msg rest IH]; intros s tr s' out H.
  - inversion H; subst. reflexivity.
  - rewrite runMessages_cons in H.
    destruct (apply (v s) (request_of msg)) as [vm [ret code]] eqn:Ea.
    assert (Hstep : ledger_step (v s) (request_of msg) = vm)
      by (unfold ledger_step; now rewrite Ea).
    cbv zeta in H.
    destruct (negb (code =? exitcode_Ok)).
    { injection H as <- <- <-. unfold ledger_after. simpl. now rewrite Hstep. }
    destruct (match ReturnHandler msg with
              | Some h => runHandler h (set_v s vm) msg ret
              | None => (set_v s vm, Done)
              end) as [s1 out1] eqn:Eh.
    assert (Hv1 : v s1 = vm).
    { destruct (ReturnHandler msg).
      - apply runHandler_v in Eh. exact Eh.
      - inversion Eh; subst. reflexivity. }
    destruct out1;
      try (injection H as <- <- <-; unfold ledger_after; simpl; now rewrite Hstep, Hv1).
    destruct (runMessages rest s1) as [[tr' s2] out2] eqn:Er.
    injection H as <- <- <-. apply IH in Er.
    rewrite Er, Hv1. unfold ledger_after. simpl. now rewrite Hstep.
Qed.

Lemma runMessages_frame (msgs : list message) :
  forall s tr s' out,
    runMessages msgs s = (tr, s', out) -> frame (creations msgs) s s'.
Proof.
  induction msgs as [| msg rest IH]; intros s tr s' out H.
  - inversion H; subst. apply frame_refl.
  - rewrite runMessages_cons in H.
    destruct (apply (v s) (request_of msg)) as [vm [ret code]] eqn:Ea.
    cbv zeta in H.
    destruct (negb (code =? exitcode_Ok)).
    { inversion H; subst. apply (frame_weaken 0); [lia | apply frame_set_v]. }
    destruct (match ReturnHandler msg with
              | Some h => runHandler h (set_v s vm) msg ret
              | None => (set_v s vm, Done)
              end) as [s1 out1] eqn:Eh.
    assert (Hf1 : frame (if isCreateMiner msg then 1 else 0) s s1).
    { unfold isCreateMiner. destruct (ReturnHandler msg) as [h |].
      - apply runHandler_frame in Eh.
        apply (frame_trans 0 _ s (set_v s vm) s1 (frame_set_v s vm)) in Eh.
        destruct h; exact Eh.
      - inversion Eh; subst. apply frame_set_v. }
    simpl creations.
    destruct out1;
      try (injection H as <- <- <-;
           apply (frame_weaken (if isCreateMiner msg then 1 else 0)); [lia | exact Hf1]).
    destruct (runMessages rest s1) as [[tr' s2] out2] eqn:Er.
    inversion H; subst. apply IH in Er.
    exact (frame_trans _ _ _ _ _ Hf1 Er).
Qed.

Lemma runMessages_trace (msgs : list message) :
  forall s tr s' out,
    runMessages msgs s = (tr, s', out) ->
    (exists k, tr = map batchEntry (take k msgs)) /\
    (out = Done -> tr = map batchEntry msgs).
Proof.
  induction msgs as [| msg rest IH]; intros s tr s' out H.
  - inversion H; subst. split; [exists O; reflexivity | reflexivity].
  - rewrite runMessages_cons in H.
    destruct (apply (v s) (request_of msg)) as [vm [ret code]] eqn:Ea.
    cbv zeta in H.
    destruct (negb (code =? exitcode_Ok)).
    { inversion H; subst. split; [exists 1%nat; reflexivity | discriminate]. }
    destruct (match ReturnHandler msg with
              | Some h => runHandler h (set_v s vm) msg ret
              | None => (set_v s vm, Done)
              end) as [s1 out1] eqn:Eh.
    destruct out1;
      try (inversion H; subst; split;
           [exists 1%nat; reflexivity | discriminate]).
    destruct (runMessages rest s1) as [[tr' s2] out2] eqn:Er.
    inversion H; subst. apply IH in Er. destruct Er as ((k & Hk) & Hd).
    split.
    + exists (S k). simpl. now rewrite Hk.
    + intros E. simpl. now rewrite (Hd E).
Qed.

(** *** Block rewards and the end of the epoch *)

Lemma rewardMiner_facts (s s' : Sim) (miner : Address) (wins : Z) (tr : list Applied)
    (out : Outcome) :
  rewardMiner s miner wins = (tr, s', out) ->
  frame 0 s s' /\ v s' = ledger_after (v s) tr /\
  (forall e, In e tr -> e = (Reward, rewardRequest miner wins) /\ 1 <= wins).
Proof.
  unfold rewardMiner. intros H.
  destruct (Z.ltb_spec wins 1) as [Hw | Hw].
  { injection H as <- <- <-. split; [apply frame_refl | split; [reflexivity |]].
    intros e []. }
  destruct (apply (v s) (rewardRequest miner wins)) as [vm [ret code]] eqn:Ea.
  assert (Hstep : ledger_step (v s) (rewardRequest miner wins) = vm)
    by (unfold ledger_step; now rewrite Ea).
  destruct (negb (code =? exitcode_Ok)); injection H as <- <- <-;
    (split; [apply frame_set_v | split;
      [unfold ledger_after; simpl; now rewrite Hstep
      | intros e [<- | []]; split; [reflexivity | exact Hw]]]).
Qed.

Lemma applyBlockRewards_facts (fuel : nat) (total : Z) (miners : list minerPowerTable) :
  forall s tr s' out,
    applyBlockRewards fuel total miners s = (tr, s', out) ->
    frame 0 s s' /\ v s' = ledger_after (v s) tr /\
    (forall e, In e tr ->
       exists miner wins r0,
         In miner miners /\ e = (Reward, rewardRequest (addr miner) wins) /\
         1 <= wins /\ 0 < total /\
         snd (WinCount fuel r0 (qaPower miner) total) = Returned wins).
Proof.
  induction miners as [| miner rest IH]; intros s tr s' out H; simpl in H.
  - injection H as <- <- <-. split; [apply frame_refl | split; [reflexivity |]].
    intros e [].
  - destruct (Z.ltb_spec 0 total) as [Ht | Ht].
    2:{ apply IH in H. destruct H as (Hf & Hv & He). split; [exact Hf | split; [exact Hv |]].
        intros e Hin. destruct (He e Hin) as (m & w & r0 & Hm & Hrest).
        exists m, w, r0. split; [now right | exact Hrest]. }
    destruct (WinCount fuel (rnd s) (qaPower miner) total) as [r res] eqn:Ew.
    destruct res as [wins | |].
    2,3: injection H as <- <- <-;
         (split; [apply frame_set_rnd | split; [reflexivity | intros e []]]).
    destruct (rewardMiner (set_rnd s r) (addr miner) wins) as [[tr1 s1] out1] eqn:Er.
    apply rewardMiner_facts in Er. destruct Er as (Hf1 & Hv1 & He1).
    assert (Hhere : forall e, In e tr1 ->
              exists m w r0, In m (miner :: rest) /\ e = (Reward, rewardRequest (addr m) w) /\
                1 <= w /\ 0 < total /\ snd (WinCount fuel r0 (qaPower m) total) = Returned w).
    { intros e Hin. destruct (He1 e Hin) as (-> & Hw).
      exists miner, wins, (rnd s). rewrite Ew.
      split; [now left | repeat split; auto]. }
    assert (Hf01 : frame 0 s s1)
      by exact (frame_trans 0 0 _ _ _ (frame_set_rnd s r) Hf1).
    destruct out1; try (injection H as <- <- <-; split; [exact Hf01 | split; [exact Hv1 | exact Hhere]]).
    destruct (applyBlockRewards fuel total rest s1) as [[tr2 s2] out2] eqn:Er2.
    injection H as <- <- <-. apply IH in Er2. destruct Er2 as (Hf2 & Hv2 & He2).
    split; [exact (frame_trans 0 0 _ _ _ Hf01 Hf2) | split].
    + rewrite ledger_after_app, Hv2. f_equal. exact Hv1.
    + intros e Hin. apply in_app_or in Hin. destruct Hin as [Hin | Hin].
      * now apply Hhere.
      * destruct (He2 e Hin) as (m & w & r0 & Hm & Hrest).
        exists m, w, r0. split; [now right | exact Hrest].
Qed.

Lemma endEpoch_facts (s s' : Sim) (tr : list Applied) (out : Outcome) :
  endEpoch s = (tr, s', out) ->
  tr = [(Cron, cronRequest)] /\
  Config s' = Config s /\ Accounts s' = Accounts s /\ Agents s' = Agents s /\
  (out = Done ->
   let vm := ledger_step (v s) cronRequest in
   snd (snd (apply (v s) cronRequest)) = exitcode_Ok /\
   statsByMethod s' = Some (GetCallStats vm) /\
   v s' = fst (WithEpoch vm (Int64.add (GetEpoch vm) 1))).
Proof.
  unfold endEpoch, ledger_step. intros H.
  destruct (apply (v s) cronRequest) as [vm [ret code]] eqn:Ea.
  destruct (Z.eqb_spec code exitcode_Ok) as [Ec | Ec]; simpl in H.
  - destruct (WithEpoch vm (Int64.add (GetEpoch vm) 1)) as [vm' err] eqn:Ee.
    injection H as <- <- <-. simpl. rewrite Ee. repeat split; auto.
  - injection H as <- <- <-. repeat split; auto; discriminate.
Qed.

(** *** Request production *)

Lemma creations_app (l1 l2 : list message) :
  creations (l1 ++ l2) = (creations l1 + creations l2)%nat.
Proof. induction l1 as [| m l1 IH]; simpl; [reflexivity | rewrite IH; lia]. Qed.

Lemma creations_lift (msgs : list (message_of Callback)) :
  creations (map liftMessage msgs) = O.
Proof.
  induction msgs as [| m msgs IH]; simpl; [reflexivity |].
  rewrite IH. unfold isCreateMiner, liftMessage. simpl.
  destruct (ReturnHandler m); reflexivity.
Qed.

Lemma tickAgents_creations (agents : list Agent) (vm : VM) :
  forall w acc w' msgs,
    tickAgents agents vm w acc = (w', inl msgs) -> creations msgs = creations acc.
Proof.
  induction agents as [| a rest IH]; intros w acc w' msgs H; simpl in H.
  - now injection H as <- <-.
  - destruct (agentTick a vm w) as [w1 [ms | e]]; [| discriminate].
    apply IH in H. rewrite H, creations_app, creations_lift. lia.
Qed.

Lemma creations_insert (l : list message) :
  forall (i : nat) (x y : message),
    l !! i = Some y ->
    (creations (<[i := x]> l) + (if isCreateMiner y then 1 else 0) =
     creations l + (if isCreateMiner x then 1 else 0))%nat.
Proof.
  induction l as [| m l IH]; intros i x y H; [discriminate |].
  destruct i as [| i]; simpl in H |- *.
  - injection H as ->. lia.
  - specialize (IH i x y H). lia.
Qed.

Lemma swap_creations (l l' : list message) (i j : nat) :
  swap l i j = Some l' -> creations l' = creations l.
Proof.
  unfold swap. destruct (l !! i) as [mi |] eqn:Ei; [| discriminate].
  destruct (l !! j) as [mj |] eqn:Ej; [| discriminate].
  intros H. injection H as <-.
  pose proof (creations_insert l i mj mi Ei) as H1.
  assert (Hj : <[i := mj]> l !! j = Some mj).
  { destruct (Nat.eq_dec i j) as [-> | Hne].
    - apply list_lookup_insert_eq. now apply lookup_lt_Some in Ej.
    - rewrite list_lookup_insert_ne by exact Hne. exact Ej. }
  pose proof (creations_insert (<[i := mj]> l) j mi mj Hj) as H2.
  lia.
Qed.

Lemma applySwaps_creations (swaps : list (nat * nat)) :
  forall l l', applySwaps swaps l = Some l' -> creations l' = creations l.
Proof.
  induction swaps as [| [i j] rest IH]; intros l l' H; simpl in H.
  - now injection H as <-.
  - destruct (swap l i j) as [l1 |] eqn:Es; [| discriminate].
    apply IH in H. apply swap_creations in Es. congruence.
Qed.

(** The step that may add a miner: on an agent set smaller than the account
    set one number is drawn and decides; otherwise nothing is drawn. *)
Lemma addMiner_cases (s : Sim) (blockMessages : list message) :
  ((length (Agents s) < length (Accounts s))%nat ->
   exists owner,
     Accounts s !! length (Agents s) = Some owner /\
     addMiner s blockMessages =
     (snd (Float32 (rnd s)),
      Returned (if PrimFloat.ltb (fst (Float32 (rnd s))) (CreateMinerProbability (Config s))
             then blockMessages ++ [createMiner s owner (newMinerConfig s)]
             else blockMessages))) /\
  (~ (length (Agents s) < length (Accounts s))%nat ->
   addMiner s blockMessages = (rnd s, Returned blockMessages)).
Proof.
  unfold addMiner. split; intros H.
  - destruct (Nat.ltb_spec (length (Agents s)) (length (Accounts s))) as [_ | Hge]; [| lia].
    destruct (lookup_lt_is_Some_2 (Accounts s) (length (Agents s)) H) as [owner Ho].
    exists owner. split; [exact Ho |]. rewrite Ho.
    destruct (Float32 (rnd s)) as [f r]. simpl.
    destruct (PrimFloat.ltb f (CreateMinerProbability (Config s))); reflexivity.
  - destruct (Nat.ltb_spec (length (Agents s)) (length (Accounts s))) as [Hlt | _]; [lia |].
    reflexivity.
Qed.

Lemma addMiner_creations (s : Sim) (blockMessages bm : list message) (r : Rng) :
  addMiner s blockMessages = (r, Returned bm) ->
  (creations bm <= creations blockMessages + 1)%nat.
Proof.
  destruct (addMiner_cases s blockMessages) as [H1 H2].
  destruct (Nat.lt_ge_cases (length (Agents s)) (length (Accounts s))) as [Hlt | Hge].
  - destruct (H1 Hlt) as (owner & _ & ->). intros H. injection H as _ <-.
    destruct (PrimFloat.ltb _ _); [| lia].
    rewrite creations_app. simpl. lia.
  - rewrite H2 by lia. intros H. injection H as _ <-. lia.
Qed.

Lemma produceBatch_facts (s s0 : Sim) (res : list message + Outcome) :
  produceBatch s = (s0, res) ->
  frame 0 s s0 /\ v s0 = v s /\ Agents s0 = Agents s /\
  (forall batch, res = inl batch -> (creations batch <= 1)%nat).
Proof.
  unfold produceBatch. intros H.
  destruct (tickAgents (Agents s) (v s) (heap s, rnd s) []) as [w [msgs | e]] eqn:Et.
  2:{ injection H as <- <-. split; [apply frame_set_world | repeat split]. discriminate. }
  apply tickAgents_creations in Et. simpl in Et.
  destruct (addMiner (set_world s w) msgs) as [r [bm | |]] eqn:Ea.
  2,3: injection H as <- <-; (split; [| repeat split; discriminate]);
       repeat split; exists []; simpl; now rewrite app_nil_r.
  apply addMiner_creations in Ea.
  destruct (Shuffle (rnd (set_rnd (set_world s w) r)) (length bm)) as [swaps r'] eqn:Es.
  destruct (applySwaps swaps bm) as [batch |] eqn:Ep.
  - injection H as <- <-. split; [| repeat split].
    + repeat split. exists []. simpl. now rewrite app_nil_r.
    + intros b Hb. injection Hb as <-. apply applySwaps_creations in Ep. lia.
  - injection H as <- <-. split; [| repeat split; discriminate].
    repeat split. exists []. simpl. now rewrite app_nil_r.
Qed.

(** *** The power table *)

Lemma ComputePowerTable_loop_facts (st : PowerState) (vm : VM) (h : AgentHeap)
    (agents : list Agent) :
  forall pt0 pt e,
    ComputePowerTable_loop st vm h agents pt0 = (pt, e) ->
    totalQAPower pt = totalQAPower pt0 /\
    (forall m, In m (minerPower pt) ->
       In m (minerPower pt0) \/
       exists agent claim,
         In agent agents /\ asMinerAgent agent h = Some (addr m) /\
         GetClaim st vm (addr m) = inl (Some claim) /\
         MinerNominalPowerMeetsConsensusMinimum st vm (addr m) = inl true /\
         qaPower m = QualityAdjPower claim).
Proof.
  induction agents as [| agent rest IH]; intros pt0 pt e H; simpl in H.
  - injection H as <- <-. split; [reflexivity | intros m Hm; now left].
  - assert (Hskip : ComputePowerTable_loop st vm h rest pt0 = (pt, e) ->
              totalQAPower pt = totalQAPower pt0 /\
              (forall m, In m (minerPower pt) ->
                 In m (minerPower pt0) \/
                 exists a claim,
                   In a (agent :: rest) /\ asMinerAgent a h = Some (addr m) /\
                   GetClaim st vm (addr m) = inl (Some claim) /\
                   MinerNominalPowerMeetsConsensusMinimum st vm (addr m) = inl true /\
                   qaPower m = QualityAdjPower claim)).
    { intros H'. apply IH in H'. destruct H' as (Ht & Hm). split; [exact Ht |].
      intros m Hin. destruct (Hm m Hin) as [Hl | (a & c & Ha & Hrest)]; [now left | right].
      exists a, c. split; [now right | exact Hrest]. }
    assert (Hstop : (pt0, e) = (pt, e) ->
              totalQAPower pt = totalQAPower pt0 /\
              (forall m, In m (minerPower pt) ->
                 In m (minerPower pt0) \/
                 exists a claim,
                   In a (agent :: rest) /\ asMinerAgent a h = Some (addr m) /\
                   GetClaim st vm (addr m) = inl (Some claim) /\
                   MinerNominalPowerMeetsConsensusMinimum st vm (addr m) = inl true /\
                   qaPower m = QualityAdjPower claim)).
    { intros H'. injection H' as <-. split; [reflexivity | intros m Hm; now left]. }
    destruct (asMinerAgent agent h) as [idAddress |] eqn:Em; [| now apply Hskip].
    destruct (GetClaim st vm idAddress) as [[claim |] | err] eqn:Ec;
      [| now apply Hskip | injection H as <- <-; now apply Hstop].
    destruct (MinerNominalPowerMeetsConsensusMinimum st vm idAddress) as [[|] | err] eqn:En;
      [| now apply Hskip | injection H as <- <-; now apply Hstop].
    apply IH in H. destruct H as (Ht & Hm). split; [exact Ht |].
    intros m Hin. destruct (Hm m Hin) as [Hl | (a & c & Ha & Hrest)].
    + simpl in Hl. apply in_app_or in Hl. destruct Hl as [Hl | [<- | []]]; [now left | right].
      exists agent, claim. simpl. split; [now left | repeat split; assumption].
    + right. exists a, c. split; [now right | exact Hrest].
Qed.

Lemma ComputePowerTable_eligible (s : Sim) (pt : powerTable) (m : minerPowerTable) :
  ComputePowerTable (v s) (heap s) (Agents s) = (pt, None) ->
  In m (minerPower pt) ->
  0 < totalQAPower pt ->
  eligible s (addr m) (qaPower m) (totalQAPower pt).
Proof.
  unfold ComputePowerTable. intros H Hin Htot.
  destruct (GetRewardState (v s)) as [rwst | err]; [| discriminate].
  destruct (GetPowerState (v s)) as [st | err] eqn:Ep; [| discriminate].
  apply ComputePowerTable_loop_facts in H. destruct H as (Ht & Hm). simpl in Ht, Hm.
  destruct (Hm m Hin) as [[] | (agent & claim & Ha & Has & Hc & Hn & Hq)].
  exists agent, st, claim. rewrite <- Ht. repeat split; assumption.
Qed.

(** *** One epoch *)

Lemma batch_entries_only (msgs : list message) (e : Applied) :
  In e (map batchEntry msgs) -> fst e = Batch.
Proof. intros H. apply in_map_iff in H. destruct H as (m & <- & _). reflexivity. Qed.

(** C3.  In every call of [Tick], however it ends, a request submitted by
    the reward step is an [AwardBlockReward] request for a producer that had
    a claim in the ledger before the tick, whose nominal power met the
    consensus minimum, with positive total quality-adjusted power, and for
    a drawn win count of at least 1; so no reward request is submitted for
    a producer that fails one of these. *)
Theorem rewards_only_for_eligible_winners (fuel : nat) (s s' : Sim) (tr : list Applied)
    (out : Outcome) :
  Tick fuel s = (tr, s', out) ->
  (forall r, In (Reward, r) tr ->
     exists a qa total wins r0,
       r = rewardRequest a wins /\ eligible s a qa total /\ 1 <= wins /\
       snd (WinCount fuel r0 qa total) = Returned wins) /\
  (forall a, (forall qa total, ~ eligible s a qa total) ->
     forall wins, ~ In (Reward, rewardRequest a wins) tr).
Proof.
  intros H.
  assert (Hmain : forall r, In (Reward, r) tr ->
            exists a qa total wins r0,
              r = rewardRequest a wins /\ eligible s a qa total /\ 1 <= wins /\
              snd (WinCount fuel r0 qa total) = Returned wins).
  { unfold Tick in H.
    destruct (ComputePowerTable (v s) (heap s) (Agents s)) as [pt [err |]] eqn:Ept.
    { injection H as <- <- <-. intros r []. }
    destruct (produceBatch s) as [s0 [batch | o]] eqn:Epb.
    2:{ injection H as <- <- <-. intros r []. }
    apply produceBatch_facts in Epb. destruct Epb as (_ & Hv0 & Hag0 & _).
    destruct (runMessages batch s0) as [[tr1 s1] out1] eqn:Erm.
    pose proof (runMessages_trace _ _ _ _ _ Erm) as ((k & Hk) & _).
    assert (Hno1 : forall r, ~ In (Reward, r) tr1).
    { intros r Hin. rewrite Hk in Hin. apply batch_entries_only in Hin. discriminate. }
    assert (Hrew : forall tr2 s2 out2,
              applyBlockRewards fuel (totalQAPower pt) (minerPower pt) s1 = (tr2, s2, out2) ->
              forall r, In (Reward, r) tr2 ->
                exists a qa total wins r0,
                  r = rewardRequest a wins /\ eligible s a qa total /\ 1 <= wins /\
                  snd (WinCount fuel r0 qa total) = Returned wins).
    { intros tr2 s2 out2 Er r Hin. apply applyBlockRewards_facts in Er.
      destruct Er as (_ & _ & He).
      destruct (He _ Hin) as (m & w & r0 & Hm & Heq & Hw & Htot & Hdraw).
      injection Heq as ->.
      exists (addr m), (qaPower m), (totalQAPower pt), w, r0.
      repeat split; auto. now apply ComputePowerTable_eligible. }
    destruct out1; try (injection H as <- <- <-; intros r Hin; now apply Hno1 in Hin).
    destruct (applyBlockRewards fuel (totalQAPower pt) (minerPower pt) s1)
      as [[tr2 s2] out2] eqn:Er.
    specialize (Hrew _ _ _ eq_refl).
    destruct out2;
      try (injection H as <- <- <-; intros r Hin; apply in_app_or in Hin;
           destruct Hin as [Hin | Hin]; [now apply Hno1 in Hin | now apply Hrew]).
    destruct (endEpoch s2) as [[tr3 s3] out3] eqn:Ee.
    apply endEpoch_facts in Ee. destruct Ee as (-> & _).
    injection H as <- <- <-. intros r Hin.
    apply in_app_or in Hin. destruct Hin as [Hin | Hin]; [now apply Hno1 in Hin |].
    apply in_app_or in Hin. destruct Hin as [Hin | [Hin | []]]; [now apply Hrew | discriminate]. }
  split; [exact Hmain |].
  intros a Hne wins Hin.
  destruct (Hmain _ Hin) as (a' & qa & total & w & r0 & Heq & Hel & _).
  injection Heq as -> _. exact (Hne qa total Hel).
Qed.

Lemma produceBatch_not_Done (s s0 : Sim) (o : Outcome) :
  produceBatch s = (s0, inr o) -> o <> Done.
Proof.
  unfold produceBatch. intros H.
  destruct (tickAgents (Agents s) (v s) (heap s, rnd s) []) as [w [msgs | e]].
  2:{ injection H as _ <-. discriminate. }
  destruct (addMiner (set_world s w) msgs) as [r [bm | |]].
  2,3: injection H as _ <-; discriminate.
  destruct (Shuffle (rnd (set_rnd (set_world s w) r)) (length bm)) as [swaps r'].
  destruct (applySwaps swaps bm) as [batch |]; [discriminate |].
  injection H as _ <-. discriminate.
Qed.



Lemma runMessages_stops (m : message) (post : list message) (vm' : VM)
    (ret : MethodReturn) (code : Z) (pre : list message) :
  forall s tr s1,
    runMessages pre s = (tr, s1, Done) ->
    apply (v s1) (request_of m) = (vm', (ret, code)) ->
    code <> exitcode_Ok ->
    runMessages (pre ++ m :: post) s =
    (tr ++ [batchEntry m], set_v s1 vm', Failed (MessageFailed code m (GetLogs vm'))).
Proof.
  induction pre as [| x pre IH]; intros s tr s1 Hpre Ha Hc.
  - injection Hpre as <- <-. simpl app. rewrite runMessages_cons, Ha. cbv zeta.
    destruct (Z.eqb_spec code exitcode_Ok); [contradiction | reflexivity].
  - simpl app. rewrite runMessages_cons in Hpre |- *.
    destruct (apply (v s) (request_of x)) as [vm [r c]].
    cbv zeta in Hpre |- *.
    destruct (negb (c =? exitcode_Ok)); [discriminate |].
    destruct (match ReturnHandler x with
              | Some h => runHandler h (set_v s vm) x r
              | None => (set_v s vm, Done)
              end) as [s2 o2].
    destruct o2; try discriminate.
    destruct (runMessages pre s2) as [[tr' s3] o3] eqn:Er.
    injection Hpre as <- <- ->.
    rewrite (IH _ _ _ Er Ha Hc). reflexivity.
Qed.

(** C5.  [Tick] submits the requests of the shuffled batch in order.  When
    the requests [pre] before [m] have gone through (with their handlers)
    and the ledger answers [m] with a code other than [Ok], [Tick] stops
    with the error that carries this code, [m] and the log of the ledger;
    the requests submitted are those of [pre], in order, and then [m]; those
    after [m] are not submitted, and the committed state of the ledger is
    the one the requests of [pre] have left. *)
Theorem Tick_aborts_at_first_failure (fuel : nat) (s s0 s1 : Sim) (pt : powerTable)
    (pre post : list message) (m : message) (tr : list Applied) (vm' : VM)
    (ret : MethodReturn) (code : Z) :
  ComputePowerTable (v s) (heap s) (Agents s) = (pt, None) ->
  produceBatch s = (s0, inl (pre ++ m :: post)) ->
  runMessages pre s0 = (tr, s1, Done) ->
  apply (v s1) (request_of m) = (vm', (ret, code)) ->
  code <> exitcode_Ok ->
  Tick fuel s =
    (map batchEntry pre ++ [batchEntry m], set_v s1 vm',
     Failed (MessageFailed code m (GetLogs vm'))) /\
  v s1 = ledger_after (v s) (map batchEntry pre) /\
  forall (X : Type) (obs : VM -> X),
    committed_state obs -> obs vm' = obs (ledger_after (v s) (map batchEntry pre)).
Proof.
  intros Hpt Hpb Hpre Ha Hc.
  pose proof (produceBatch_facts _ _ _ Hpb) as (_ & Hv0 & _).
  pose proof (runMessages_trace _ _ _ _ _ Hpre) as (_ & Htr). specialize (Htr eq_refl).
  pose proof (runMessages_ledger _ _ _ _ _ Hpre) as Hled. rewrite Hv0, Htr in Hled.
  split; [| split; [exact Hled |]].
  - unfold Tick. rewrite Hpt, Hpb.
    rewrite (runMessages_stops m post vm' ret code pre _ _ _ Hpre Ha Hc), Htr.
    reflexivity.
  - intros X obs Hobs. rewrite <- Hled.
    specialize (Hobs (v s1) (request_of m)). rewrite Ha in Hobs. simpl in Hobs.
    now apply Hobs.
Qed.

Lemma tickAgents_stops (a : Agent) (post : list Agent) (vm : VM) (w : AgentHeap * Rng)
    (e : Err) (pre : list Agent) :
  forall w1 acc w0 msgs,
    tickAgents pre vm w1 acc = (w0, inl msgs) ->
    agentTick a vm w0 = (w, inr e) ->
    tickAgents (pre ++ a :: post) vm w1 acc = (w, inr e).
Proof.
  induction pre as [| x pre IH]; intros w1 acc w0 msgs Hpre Ha; simpl in Hpre |- *.
  - injection Hpre as <- <-. now rewrite Ha.
  - destruct (agentTick x vm w1) as [w2 [ms | err]]; [| discriminate].
    exact (IH _ _ _ _ Hpre Ha).
Qed.

(** C7.  When the agents before [a] have produced their messages and the
    call of [a.Tick] returns an error, [Tick] returns this error: no request
    has been submitted, and the ledger with its epoch, the agent set, the
    account set and the stored statistics are as before the call. *)
Theorem agent_error_aborts (fuel : nat) (s : Sim) (pt : powerTable)
    (pre post : list Agent) (a : Agent) (w0 w : AgentHeap * Rng)
    (msgs : list message) (e : Err) :
  ComputePowerTable (v s) (heap s) (Agents s) = (pt, None) ->
  Agents s = pre ++ a :: post ->
  tickAgents pre (v s) (heap s, rnd s) [] = (w0, inl msgs) ->
  agentTick a (v s) w0 = (w, inr e) ->
  exists s',
    Tick fuel s = ([], s', Failed (External e)) /\
    v s' = v s /\ GetEpoch (v s') = GetEpoch (v s) /\
    Agents s' = Agents s /\ Accounts s' = Accounts s /\
    statsByMethod s' = statsByMethod s.
Proof.
  intros Hpt Hag Hpre Ha. exists (set_world s w).
  split; [| repeat split].
  unfold Tick, produceBatch. rewrite Hpt, Hag.
  rewrite (tickAgents_stops a post (v s) w e pre _ _ _ _ Hpre Ha). reflexivity.
Qed.

Lemma Tick_frame (fuel : nat) (s s' : Sim) (tr : list Applied) (out : Outcome) :
  Tick fuel s = (tr, s', out) ->
  Config s' = Config s /\ Accounts s' = Accounts s /\
  exists new, Agents s' = Agents s ++ new /\ (length new <= 1)%nat.
Proof.
  assert (Hfr : forall n s2, (n <= 1)%nat -> frame n s s2 ->
            Config s2 = Config s /\ Accounts s2 = Accounts s /\
            exists new, Agents s2 = Agents s ++ new /\ (length new <= 1)%nat).
  { intros n s2 Hn (Hc & Ha & _ & new & Hnew & Hl). repeat split; auto.
    exists new. split; [exact Hnew | lia]. }
  unfold Tick. intros H.
  destruct (ComputePowerTable (v s) (heap s) (Agents s)) as [pt [err |]].
  { injection H as _ <- _. exact (Hfr 0%nat s ltac:(lia) (frame_refl s)). }
  destruct (produceBatch s) as [s0 [batch | o]] eqn:Epb;
    apply produceBatch_facts in Epb; destruct Epb as (Hf0 & _ & _ & Hcr).
  2:{ injection H as _ <- _. exact (Hfr 0%nat s0 ltac:(lia) Hf0). }
  specialize (Hcr batch eq_refl).
  destruct (runMessages batch s0) as [[tr1 s1] out1] eqn:Erm.
  apply runMessages_frame in Erm.
  pose proof (frame_trans _ _ _ _ _ Hf0 Erm) as Hf1. simpl in Hf1.
  destruct out1; try (injection H as _ <- _; exact (Hfr _ s1 Hcr Hf1)).
  destruct (applyBlockRewards fuel (totalQAPower pt) (minerPower pt) s1)
    as [[tr2 s2] out2] eqn:Er.
  apply applyBlockRewards_facts in Er. destruct Er as (Hf2 & _ & _).
  pose proof (frame_trans _ _ _ _ _ Hf1 Hf2) as Hf12. rewrite Nat.add_0_r in Hf12.
  destruct out2; try (injection H as _ <- _; exact (Hfr _ s2 Hcr Hf12)).
  destruct (endEpoch s2) as [[tr3 s3] out3] eqn:Ee.
  apply endEpoch_facts in Ee. destruct Ee as (_ & Hc3 & Ha3 & Hg3 & _).
  injection H as _ <- _.
  destruct (Hfr _ s2 Hcr Hf12) as (Hc & Ha & new & Hnew & Hl).
  repeat split; try congruence. exists new. split; [congruence | exact Hl].
Qed.

(** *** Determinism *)

Lemma same_inputs_refl (s : Sim) : same_inputs s s.
Proof. repeat split. Qed.

Lemma same_inputs_stats (s1 s2 : Sim) :
  same_inputs s1 s2 -> s2 = set_statsByMethod s1 (statsByMethod s2).
Proof.
  destruct s1, s2. unfold same_inputs, set_statsByMethod. simpl.
  intros (-> & -> & -> & -> & -> & ->). reflexivity.
Qed.

Lemma set_stats_same_inputs (s : Sim) (x : option CallStats) :
  same_inputs s (set_statsByMethod s x).
Proof. repeat split. Qed.

Lemma runHandler_stats (h : returnHandler) (s : Sim) (msg : message) (ret : MethodReturn)
    (x : option CallStats) :
  runHandler h (set_statsByMethod s x) msg ret =
  (set_statsByMethod (fst (runHandler h s msg ret)) x, snd (runHandler h s msg ret)).
Proof.
  unfold runHandler. destruct h as [cfg | cb].
  - destruct ret; try reflexivity. destruct (Params msg); try reflexivity.
    simpl. destruct (NewMinerAgent _ _ _ _ _ _). reflexivity.
  - simpl. destruct (runCallback _ _ _ _ _) as [w [err |]]; reflexivity.
Qed.

Lemma runMessages_stats (x : option CallStats) (msgs : list message) :
  forall s,
    runMessages msgs (set_statsByMethod s x) =
    (fst (fst (runMessages msgs s)),
     set_statsByMethod (snd (fst (runMessages msgs s))) x,
     snd (runMessages msgs s)).
Proof.
  induction msgs as [| msg rest IH]; intros s; [reflexivity |].
  rewrite !runMessages_cons. simpl v.
  destruct (apply (v s) (request_of msg)) as [vm [ret code]]. cbv zeta.
  destruct (negb (code =? exitcode_Ok)); [reflexivity |].
  change (set_v (set_statsByMethod s x) vm) with (set_statsByMethod (set_v s vm) x).
  assert (E : match ReturnHandler msg with
              | Some h => runHandler h (set_statsByMethod (set_v s vm) x) msg ret
              | None => (set_statsByMethod (set_v s vm) x, Done)
              end =
              (set_statsByMethod
                 (fst match ReturnHandler msg with
                      | Some h => runHandler h (set_v s vm) msg ret
                      | None => (set_v s vm, Done)
                      end) x,
               snd match ReturnHandler msg with
                   | Some h => runHandler h (set_v s vm) msg ret
                   | None => (set_v s vm, Done)
                   end)).
  { destruct (ReturnHandler msg); [apply runHandler_stats | reflexivity]. }
  rewrite E.
  destruct (match ReturnHandler msg with
            | Some h => runHandler h (set_v s vm) msg ret
            | None => (set_v s vm, Done)
            end) as [s1 out1]. simpl fst. simpl snd.
  destruct out1; try reflexivity.
  rewrite IH. destruct (runMessages rest s1) as [[tr' s2] out2]. reflexivity.
Qed.

Lemma applyBlockRewards_stats (fuel : nat) (total : Z) (x : option CallStats)
    (miners : list minerPowerTable) :
  forall s,
    applyBlockRewards fuel total miners (set_statsByMethod s x) =
    (fst (fst (applyBlockRewards fuel total miners s)),
     set_statsByMethod (snd (fst (applyBlockRewards fuel total miners s))) x,
     snd (applyBlockRewards fuel total miners s)).
Proof.
  induction miners as [| miner rest IH]; intros s; [reflexivity |].
  simpl. destruct (0 <? total); [| apply IH].
  destruct (WinCount fuel (rnd s) (qaPower miner) total) as [r [wins | |]]; try reflexivity.
  unfold rewardMiner. destruct (wins <? 1).
  - change (set_rnd (set_statsByMethod s x) r) with (set_statsByMethod (set_rnd s r) x).
    rewrite IH. destruct (applyBlockRewards fuel total rest (set_rnd s r)) as [[tr' s2] out2].
    reflexivity.
  - simpl v. destruct (apply (v s) (rewardRequest (addr miner) wins)) as [vm [ret code]].
    destruct (negb (code =? exitcode_Ok)); [reflexivity |].
    change (set_v (set_rnd (set_statsByMethod s x) r) vm)
      with (set_statsByMethod (set_v (set_rnd s r) vm) x).
    rewrite IH.
    destruct (applyBlockRewards fuel total rest (set_v (set_rnd s r) vm)) as [[tr' s2] out2].
    reflexivity.
Qed.

Lemma produceBatch_stats (s : Sim) (x : option CallStats) :
  produceBatch (set_statsByMethod s x) =
  (set_statsByMethod (fst (produceBatch s)) x, snd (produceBatch s)).
Proof.
  unfold produceBatch. simpl Agents. simpl v. simpl heap. simpl rnd.
  destruct (tickAgents (Agents s) (v s) (heap s, rnd s) []) as [w [msgs | e]];
    [| reflexivity].
  unfold addMiner. simpl.
  destruct (length (Agents s) <? length (Accounts s))%nat.
  - destruct (Float32 (snd w)) as [f r].
    destruct (PrimFloat.ltb f (CreateMinerProbability (Config s))).
    + destruct (Accounts s !! length (Agents s)) as [owner |]; [| reflexivity].
      simpl. destruct (Shuffle r _) as [swaps r']. simpl.
      unfold createMiner, newMinerConfig. simpl.
      destruct (applySwaps swaps _); reflexivity.
    + simpl. destruct (Shuffle r _) as [swaps r']. simpl.
      destruct (applySwaps swaps msgs); reflexivity.
  - simpl. destruct (Shuffle (snd w) _) as [swaps r']. simpl.
    destruct (applySwaps swaps msgs); reflexivity.
Qed.

Lemma endEpoch_stats (s : Sim) (x : option CallStats) :
  fst (fst (endEpoch (set_statsByMethod s x))) = fst (fst (endEpoch s)) /\
  snd (endEpoch (set_statsByMethod s x)) = snd (endEpoch s) /\
  same_inputs (snd (fst (endEpoch s))) (snd (fst (endEpoch (set_statsByMethod s x)))).
Proof.
  unfold endEpoch. simpl v.
  destruct (apply (v s) cronRequest) as [vm [ret code]].
  destruct (negb (code =? exitcode_Ok)).
  - simpl. repeat split.
  - simpl. destruct (WithEpoch vm (Int64.add (GetEpoch vm) 1)) as [vm' err].
    simpl. repeat split.
Qed.

Lemma Tick_stats (fuel : nat) (s : Sim) (x : option CallStats) :
  fst (fst (Tick fuel (set_statsByMethod s x))) = fst (fst (Tick fuel s)) /\
  snd (Tick fuel (set_statsByMethod s x)) = snd (Tick fuel s) /\
  same_inputs (snd (fst (Tick fuel s))) (snd (fst (Tick fuel (set_statsByMethod s x)))).
Proof.
  unfold Tick. simpl v. simpl heap. simpl Agents.
  destruct (ComputePowerTable (v s) (heap s) (Agents s)) as [pt [err |]].
  { simpl. repeat split. }
  rewrite produceBatch_stats.
  destruct (produceBatch s) as [s0 [batch | o]] eqn:Epb; simpl fst; simpl snd.
  2:{ simpl. repeat split. }
  rewrite runMessages_stats.
  destruct (runMessages batch s0) as [[tr1 s1] out1]. simpl fst. simpl snd.
  destruct out1; try solve [simpl; repeat split].
  rewrite applyBlockRewards_stats.
  destruct (applyBlockRewards fuel (totalQAPower pt) (minerPower pt) s1)
    as [[tr2 s2] out2]. simpl fst. simpl snd.
  destruct out2; try solve [simpl; repeat split].
  destruct (endEpoch_stats s2 x) as (Ht & Ho & Hs).
  destruct (endEpoch (set_statsByMethod s2 x)) as [[tr3 s3] out3].
  destruct (endEpoch s2) as [[tr3' s3'] out3']. simpl in Ht, Ho, Hs |- *.
  subst. repeat split; apply Hs.
Qed.

Lemma Tick_same_inputs (fuel : nat) (s1 s2 : Sim) :
  same_inputs s1 s2 ->
  fst (fst (Tick fuel s1)) = fst (fst (Tick fuel s2)) /\
  snd (Tick fuel s1) = snd (Tick fuel s2) /\
  same_inputs (snd (fst (Tick fuel s1))) (snd (fst (Tick fuel s2))).
Proof.
  intros H. rewrite (same_inputs_stats _ _ H).
  destruct (Tick_stats fuel s1 (statsByMethod s2)) as (Ht & Ho & Hs).
  now rewrite Ht, Ho.
Qed.

(** The statistics stored by the last epoch are not read: two engines that
    agree on the configuration, the accounts, the agents with their objects,
    the ledger and the generator submit the same requests in every tick, end
    the same way and agree again afterwards, whatever statistics they hold. *)
Lemma run_deterministic (fuel n : nat) (s1 s2 : Sim) :
  same_inputs s1 s2 ->
  fst (fst (run fuel n s1)) = fst (fst (run fuel n s2)) /\
  snd (run fuel n s1) = snd (run fuel n s2) /\
  same_inputs (snd (fst (run fuel n s1))) (snd (fst (run fuel n s2))).
Proof.
  revert s1 s2. induction n as [| n IH]; intros s1 s2 H; simpl.
  - repeat split; apply H.
  - destruct (Tick_same_inputs fuel s1 s2 H) as (Ht & Ho & Hs).
    destruct (Tick fuel s1) as [[tr1 s1'] o1]. destruct (Tick fuel s2) as [[tr2 s2'] o2].
    simpl in Ht, Ho, Hs. subst tr2 o2.
    destruct o1; try (simpl; repeat split; apply Hs).
    specialize (IH s1' s2' Hs). destruct IH as (It & Io & Is).
    destruct (run fuel n s1') as [[trs1 t1] p1]. destruct (run fuel n s2') as [[trs2 t2] p2].
    simpl in It, Io, Is |- *. subst. repeat split; apply Is.
Qed.

(** The engine [NewSim] builds: its generator is seeded with the seed of the
    configuration, its accounts are those the ledger created with the
    configured initial balance, and it has no agent. *)
Lemma NewSim_facts (store : Store) (config : SimConfig) :
  let s := NewSim store config in
  Config s = config /\ rnd s = NewRand (Seed config) /\ Agents s = [] /\
  statsByMethod s = None /\
  (Accounts s, v s) =
    CreateAccounts (NewCustomStoreVMWithSingletons store) (AccountCount config)
      (AccountInitialBalance config) (Seed config).
Proof. unfold NewSim. destruct (CreateAccounts _ _ _ _). repeat split. Qed.

End EngineFacts.

(** ** The theorems on the sample world *)

Module SampleFacts.
Import Sample.

Lemma sim1_tick :
  Tick 100 sim1 = (fst (fst (Tick 100 sim1)), snd (fst (Tick 100 sim1)), Done).
Proof. vm_compute. reflexivity. Qed.

(** The scenario of the specification: three accounts of 1000 units, seed
    42, creation probability 1; after one call of [Tick] there is one agent,
    created from the first account with a value of 1000, and there are still
    three accounts. *)
Example scenario_one_tick :
  fst (fst (Tick 100 sim0)) =
    [ (Batch, {| reqFrom := 100; reqTo := 4; reqValue := 1000; reqMethod := 2;
                 reqParams := CreateMinerParams 100 100 8 |});
      (Cron, cronRequest) ] /\
  snd (Tick 100 sim0) = Done /\
  Agents sim1 = [MinerAgent 1000] /\ Accounts sim1 = [100; 101; 102].
Proof. vm_compute. repeat split. Qed.

Lemma run_deterministic_witness :
  same_inputs sim0 sim0' /\
  fst (fst (run 100 3 sim0)) = fst (fst (run 100 3 sim0')) /\
  snd (run 100 3 sim0) = snd (run 100 3 sim0') /\
  same_inputs (snd (fst (run 100 3 sim0))) (snd (fst (run 100 3 sim0'))).
Proof.
  split; [repeat split | apply (run_deterministic 100 3 sim0 sim0'); repeat split].
Defined.

Lemma rewards_only_for_eligible_winners_witness :
  In (Reward, rewardRequest 1000 4) (fst (fst (Tick 100 sim1))) /\
  exists a qa total wins r0,
    rewardRequest 1000 4 = rewardRequest a wins /\ eligible sim1 a qa total /\
    1 <= wins /\ snd (WinCount 100 r0 qa total) = Returned wins.
Proof.
  assert (Hin : In (Reward, rewardRequest 1000 4) (fst (fst (Tick 100 sim1)))).
  { vm_compute. right. right. left. reflexivity. }
  split; [exact Hin |].
  exact (proj1 (rewards_only_for_eligible_winners 100 sim1 _ _ _ sim1_tick) _ Hin).
Defined.


Lemma Tick_aborts_at_first_failure_witness :
  failingBatch = take 2 failingBatch ++ failingMessage :: [] /\
  fst (fst (Tick 100 simFailing)) =
    map batchEntry (take 2 failingBatch) ++ [batchEntry failingMessage] /\
  exists code logs, snd (Tick 100 simFailing) = Failed (MessageFailed code failingMessage logs).
Proof.
  split; [vm_compute; reflexivity |].
  destruct (Tick_aborts_at_first_failure 100 simFailing
              (fst (produceBatch simFailing))
              (snd (fst (runMessages (take 2 failingBatch) (fst (produceBatch simFailing)))))
              (fst (ComputePowerTable (v simFailing) (heap simFailing) (Agents simFailing)))
              (take 2 failingBatch) [] failingMessage
              (fst (fst (runMessages (take 2 failingBatch) (fst (produceBatch simFailing)))))
              (fst (apply (v (snd (fst (runMessages (take 2 failingBatch)
                                          (fst (produceBatch simFailing))))))
                          (request_of failingMessage)))
              NilReturn 1) as (Ht & _).
  - vm_compute. reflexivity.
  - vm_compute. reflexivity.
  - vm_compute. reflexivity.
  - vm_compute. reflexivity.
  - discriminate.
  - rewrite Ht. split; [reflexivity | eexists; eexists; reflexivity].
Defined.

Lemma agent_error_aborts_witness :
  exists s',
    Tick 100 simBroken = ([], s', Failed (External "agent failed"%string)) /\
    v s' = v simBroken /\ GetEpoch (v s') = GetEpoch (v simBroken) /\
    Agents s' = Agents simBroken /\ Accounts s' = Accounts simBroken /\
    statsByMethod s' = statsByMethod simBroken.
Proof.
  apply (@agent_error_aborts domain collaborators 100 simBroken
           (fst (ComputePowerTable (v simBroken) (heap simBroken) (Agents simBroken)))
           [MinerAgent 1000] [] Broken
           (fst (@tickAgents domain collaborators [MinerAgent 1000] (v simBroken)
                   (heap simBroken, rnd simBroken) []))
           (fst (@tickAgents domain collaborators [MinerAgent 1000] (v simBroken)
                   (heap simBroken, rnd simBroken) []))
           (match snd (@tickAgents domain collaborators [MinerAgent 1000] (v simBroken)
                         (heap simBroken, rnd simBroken) []) with
            | inl msgs => msgs
            | inr _ => []
            end)
           "agent failed"%string).
  - vm_compute. reflexivity.
  - vm_compute. reflexivity.
  - vm_compute. reflexivity.
  - vm_compute. reflexivity.
Defined.

End SampleFacts.

(** * Further properties *)

(** ** The multisig actor state *)

Module MultisigMore.
Import Multisig.

(** X1.  [isAuthorizedParty] is membership in [AuthorizedParties]. *)
Theorem isAuthorizedParty_iff (st : MultiSigActorState) (party : Z) :
  isAuthorizedParty st party = true <-> In party (AuthorizedParties st).
Proof.
  unfold isAuthorizedParty. induction (AuthorizedParties st) as [| ap rest IH]; simpl.
  - split; [discriminate | intros []].
  - destruct (Z.eqb_spec party ap) as [-> | Hne].
    + split; [intros _; now left | reflexivity].
    + rewrite IH. split; [intros H; now right | intros [H | H]; [congruence | exact H]].
Qed.

(** X2.  [AmountLocked] panics (integer division by zero) exactly when the
    unlock duration is 0 and the elapsed epoch is negative. *)
Theorem AmountLocked_panics_iff (st : MultiSigActorState) (e : Z) :
  AmountLocked st e = None <-> UnlockDuration st = 0 /\ e < 0.
Proof.
  unfold AmountLocked, Int64.div.
  destruct (Z.leb_spec (UnlockDuration st) e) as [Hle | Hgt].
  - split; [discriminate | intros (H0 & He); lia].
  - destruct (Z.eqb_spec (UnlockDuration st) 0) as [E | E].
    + split; [intros _; lia | reflexivity].
    + split; [discriminate | intros (H0 & _); contradiction].
Qed.

(** X3.  [_hasAvailable] panics exactly when the amount passes the first
    guard, the unlock duration is 0 and the current epoch is before the
    start epoch. *)
Theorem hasAvailable_panics_iff (st : MultiSigActorState)
    (currBalance amountToSpend currEpoch : Z) :
  _hasAvailable st currBalance amountToSpend currEpoch = None <->
  0 <= amountToSpend /\ amountToSpend <= currBalance /\
  UnlockDuration st = 0 /\ Int64.sub currEpoch (StartEpoch st) < 0.
Proof.
  unfold _hasAvailable.
  destruct (Z.ltb_spec amountToSpend 0) as [Hneg | Hpos]; simpl.
  { split; [discriminate | lia]. }
  destruct (Z.ltb_spec currBalance amountToSpend) as [Hlt | Hge]; simpl.
  { split; [discriminate | lia]. }
  assert (Hp : AmountLocked st (Int64.sub currEpoch (StartEpoch st)) = None <->
               UnlockDuration st = 0 /\ Int64.sub currEpoch (StartEpoch st) < 0).
  { unfold AmountLocked, Int64.div.
    destruct (Z.leb_spec (UnlockDuration st) (Int64.sub currEpoch (StartEpoch st))).
    - split; [discriminate | intros (H0 & He); lia].
    - destruct (Z.eqb_spec (UnlockDuration st) 0) as [E | E].
      + split; [intros _; lia | reflexivity].
      + split; [discriminate | intros (H0 & _); contradiction]. }
  destruct (AmountLocked st (Int64.sub currEpoch (StartEpoch st))) as [locked |].
  - split.
    + destruct (_ <? locked); discriminate.
    + intros (_ & _ & H). apply Hp in H. discriminate.
  - split; [| reflexivity]. intros _. destruct (proj1 Hp eq_refl). repeat split; lia.
Qed.

(** X4.  From the first elapsed epoch on nothing is held back: with an
    unlock duration of at least 1 and at least one epoch elapsed,
    [_hasAvailable] accepts every amount from 0 to the current balance and
    nothing else. *)
Theorem hasAvailable_after_first_epoch (st : MultiSigActorState)
    (currBalance amountToSpend currEpoch : Z) :
  well_typed st ->
  Int64.in_range currBalance ->
  Int64.in_range amountToSpend ->
  1 <= UnlockDuration st ->
  1 <= Int64.sub currEpoch (StartEpoch st) ->
  (_hasAvailable st currBalance amountToSpend currEpoch = Some true <->
   0 <= amountToSpend <= currBalance).
Proof.
  intros Hwt Hb Ha HU He.
  assert (Hl : AmountLocked st (Int64.sub currEpoch (StartEpoch st)) = Some 0).
  { destruct (Z.lt_ge_cases (Int64.sub currEpoch (StartEpoch st)) (UnlockDuration st)).
    - apply MultisigFacts.AmountLocked_during; [exact Hwt | lia].
    - apply MultisigFacts.AmountLocked_expired. lia. }
  unfold _hasAvailable. rewrite Hl.
  destruct (Z.ltb_spec amountToSpend 0) as [Hneg | Hpos]; simpl.
  { split; [discriminate | lia]. }
  destruct (Z.ltb_spec currBalance amountToSpend) as [Hlt | Hge]; simpl.
  { split; [discriminate | lia]. }
  assert (Hd : Int64.sub currBalance amountToSpend = currBalance - amountToSpend).
  { unfold Int64.sub. apply wrap_in_range.
    revert Hb Ha. unfold Int64.in_range, Int64.min_signed, Int64.max_signed. lia. }
  rewrite Hd. destruct (Z.ltb_spec (currBalance - amountToSpend) 0); [lia |].
  split; [lia | reflexivity].
Qed.

Lemma hasAvailable_after_first_epoch_witness :
  _hasAvailable wallet 1000 1000 6 = Some true <-> 0 <= 1000 <= 1000.
Proof.
  apply (hasAvailable_after_first_epoch wallet 1000 1000 6).
  - apply MultisigFacts.wallet_well_typed.
  - unfold Int64.in_range, Int64.min_signed, Int64.max_signed; lia.
  - unfold Int64.in_range, Int64.min_signed, Int64.max_signed; lia.
  - simpl; lia.
  - vm_compute. discriminate.
Defined.

(** X5.  When an amount is available, so is every smaller amount that is
    not negative. *)
Theorem hasAvailable_smaller_amount (st : MultiSigActorState)
    (currBalance amountToSpend smaller currEpoch : Z) :
  Int64.in_range currBalance ->
  Int64.in_range amountToSpend ->
  0 <= smaller <= amountToSpend ->
  _hasAvailable st currBalance amountToSpend currEpoch = Some true ->
  _hasAvailable st currBalance smaller currEpoch = Some true.
Proof.
  intros Hb Ha Hs. unfold _hasAvailable.
  destruct (Z.ltb_spec amountToSpend 0) as [Hneg | Hpos]; simpl; [discriminate |].
  destruct (Z.ltb_spec currBalance amountToSpend) as [Hlt | Hge]; simpl; [discriminate |].
  destruct (Z.ltb_spec smaller 0); [lia |].
  destruct (Z.ltb_spec currBalance smaller); [lia |]. simpl.
  destruct (AmountLocked st (Int64.sub currEpoch (StartEpoch st))) as [locked |];
    [| discriminate].
  assert (Hd : forall a, 0 <= a <= amountToSpend ->
            Int64.sub currBalance a = currBalance - a).
  { intros a H1. unfold Int64.sub. apply wrap_in_range.
    revert Hb Ha. unfold Int64.in_range, Int64.min_signed, Int64.max_signed. lia. }
  rewrite (Hd amountToSpend) by lia. rewrite (Hd smaller) by lia.
  destruct (Z.ltb_spec (currBalance - amountToSpend) locked); [discriminate |].
  destruct (Z.ltb_spec (currBalance - smaller) locked); [lia | reflexivity].
Qed.

Lemma hasAvailable_smaller_amount_witness :
  _hasAvailable wallet 1000 100 20 = Some true.
Proof.
  apply (hasAvailable_smaller_amount wallet 1000 400 100 20).
  - unfold Int64.in_range, Int64.min_signed, Int64.max_signed; lia.
  - unfold Int64.in_range, Int64.min_signed, Int64.max_signed; lia.
  - lia.
  - vm_compute. reflexivity.
Defined.

(** X6.  Before the start epoch the whole initial balance is locked: for an
    elapsed epoch above [-UnlockDuration] and at most 0 the quotient is 1. *)
Theorem AmountLocked_before_start (st : MultiSigActorState) (e : Z) :
  well_typed st ->
  1 <= UnlockDuration st ->
  - UnlockDuration st < e <= 0 ->
  Int64.in_range (UnlockDuration st - e) ->
  AmountLocked st e = Some (InitialBalance st).
Proof.
  intros (HB & _ & HU) H1 He Hr. unfold AmountLocked.
  destruct (Z.leb_spec (UnlockDuration st) e); [lia |].
  unfold Int64.sub, Int64.div. rewrite (wrap_in_range _ Hr).
  destruct (Z.eqb_spec (UnlockDuration st) 0); [lia |].
  assert (Hq : Z.quot (UnlockDuration st - e) (UnlockDuration st) = 1).
  { rewrite Z.quot_div_nonneg by lia. symmetry.
    apply (Z.div_unique _ _ 1 (- e)); lia. }
  rewrite Hq.
  rewrite (wrap_in_range 1) by (unfold Int64.in_range, Int64.min_signed, Int64.max_signed; lia).
  rewrite uint64_mul_1_r, (wrap_of_uint64 _ HB). reflexivity.
Qed.

Lemma AmountLocked_before_start_witness : AmountLocked wallet (-3) = Some 1000.
Proof.
  apply (AmountLocked_before_start wallet (-3)).
  - apply MultisigFacts.wallet_well_typed.
  - simpl; lia.
  - simpl; lia.
  - unfold Int64.in_range, Int64.min_signed, Int64.max_signed; simpl; lia.
Defined.

End MultisigMore.

(** ** The leader-election sampler *)

Section SamplerMore.
Context {D : Domain} {C : Collaborators}.

Lemma fact_loop_no_panic (fuel : nat) :
  forall k i f, fact_loop fuel k i f <> Panic.
Proof.
  induction fuel as [| fuel IH]; intros k i f; simpl;
    destruct (PrimFloat.leb i k); try discriminate. apply IH.
Qed.

Lemma poissonPMF_no_panic (fuel : nat) (lambda : float) (k : Z) :
  poissonPMF fuel lambda k <> Panic.
Proof.
  unfold poissonPMF, fact.
  pose proof (fact_loop_no_panic fuel (Float64.of_uint64 k) 2 1) as H.
  destruct (fact_loop fuel (Float64.of_uint64 k) 2 1); [discriminate | contradiction | discriminate].
Qed.

Lemma WinCount_loop_no_panic (fuel : nat) (lambda h : float) (n : nat) :
  forall rhs winCount, WinCount_loop n fuel lambda h rhs winCount <> Panic.
Proof.
  induction n as [| n IH]; intros rhs winCount; simpl;
    destruct (Float64.gt rhs h); try discriminate.
  pose proof (poissonPMF_no_panic fuel lambda (Uint64.add winCount 1)) as H.
  destruct (poissonPMF fuel lambda (Uint64.add winCount 1));
    [apply IH | contradiction | discriminate].
Qed.

Lemma WinCount_loop_range (fuel : nat) (lambda h : float) (n : nat) :
  forall rhs winCount k,
    0 <= winCount < Int64.modulus ->
    WinCount_loop n fuel lambda h rhs winCount = Returned k ->
    0 <= k < Int64.modulus.
Proof.
  induction n as [| n IH]; intros rhs winCount k Hw; simpl;
    destruct (Float64.gt rhs h); try discriminate;
    try (intros H; injection H as <-; exact Hw).
  destruct (poissonPMF fuel lambda (Uint64.add winCount 1)); try discriminate.
  apply IH. unfold Uint64.add. apply Z.mod_pos_bound. reflexivity.
Qed.

(** X7.  [WinCount] on a total power of 0 panics before it draws; on any
    other total power it draws exactly one [Float64], does not panic, and
    what it returns is a [uint64]. *)
Theorem WinCount_draws_once (fuel : nat) (r : Rng) (minerPower totalPower : Z) :
  (totalPower = 0 -> WinCount fuel r minerPower totalPower = (r, Panic)) /\
  (totalPower <> 0 ->
   fst (WinCount fuel r minerPower totalPower) = snd (Float64 r) /\
   snd (WinCount fuel r minerPower totalPower) <> Panic /\
   forall k, snd (WinCount fuel r minerPower totalPower) = Returned k ->
             0 <= k < Int64.modulus).
Proof.
  unfold WinCount, Rat.SetFrac. split.
  - intros ->. reflexivity.
  - intros Hne. destruct (Z.eqb_spec totalPower 0) as [E | _]; [contradiction |].
    destruct (Float64 r) as [h r']. simpl snd at 1.
    set (lambda := Rat.Float64 _).
    pose proof (poissonPMF_no_panic fuel lambda 0) as Hp.
    destruct (poissonPMF fuel lambda 0) as [p0 | |]; simpl.
    + split; [reflexivity | split].
      * apply WinCount_loop_no_panic.
      * intros k Hk.
        apply (WinCount_loop_range fuel lambda h fuel (1 - p0)%float 0 k);
          [unfold Int64.modulus; lia | exact Hk].
    + contradiction.
    + split; [reflexivity | split; [discriminate | discriminate]].
Qed.

End SamplerMore.

(** ** The engine *)

Section EngineMore.
Context {D : Domain} {C : Collaborators}.

(** *** The shuffle *)

Lemma swap_defined (l : list message) (i j : nat) :
  (i < length l)%nat -> (j < length l)%nat ->
  exists mi mj,
    l !! i = Some mi /\ l !! j = Some mj /\
    swap l i j = Some (<[j := mi]> (<[i := mj]> l)).
Proof.
  intros Hi Hj.
  destruct (lookup_lt_is_Some_2 l i Hi) as [mi Ei].
  destruct (lookup_lt_is_Some_2 l j Hj) as [mj Ej].
  exists mi, mj. unfold swap. rewrite Ei, Ej. repeat split.
Qed.

(** X8.  The closure handed to [Shuffle] exchanges the messages at the two
    indices and leaves the others and the length as they are; an index out
    of range is a panic. *)
Theorem swap_exchanges (l : list message) (i j : nat) :
  ((i < length l)%nat /\ (j < length l)%nat ->
   exists l',
     swap l i j = Some l' /\ length l' = length l /\
     l' !! i = l !! j /\ l' !! j = l !! i /\
     forall k, k <> i -> k <> j -> l' !! k = l !! k) /\
  (~ ((i < length l)%nat /\ (j < length l)%nat) -> swap l i j = None).
Proof.
  split.
  - intros (Hi & Hj). destruct (swap_defined l i j Hi Hj) as (mi & mj & Ei & Ej & Es).
    eexists. split; [exact Es |]. rewrite !length_insert. split; [reflexivity |].
    split; [| split].
    + destruct (Nat.eq_dec i j) as [-> | Hne].
      * rewrite list_lookup_insert_eq by (rewrite length_insert; exact Hj). congruence.
      * rewrite list_lookup_insert_ne by congruence.
        rewrite list_lookup_insert_eq by exact Hi. congruence.
    + rewrite list_lookup_insert_eq by (rewrite length_insert; exact Hj). congruence.
    + intros k Hki Hkj. rewrite !list_lookup_insert_ne by congruence. reflexivity.
  - intros Hn. unfold swap.
    destruct (l !! i) as [mi |] eqn:Ei; [| reflexivity].
    destruct (l !! j) as [mj |] eqn:Ej; [| reflexivity].
    exfalso. apply Hn. split; eapply lookup_lt_Some; eassumption.
Qed.

Lemma insert_Permutation (l : list message) :
  forall (j : nat) (x y : message),
    l !! j = Some y -> x :: l ≡ₚ y :: <[j := x]> l.
Proof.
  induction l as [| m l IH]; intros j x y H; [discriminate |].
  destruct j as [| j]; simpl in H |- *.
  - injection H as ->. apply perm_swap.
  - rewrite (perm_swap m x l). rewrite (IH j x y H).
    rewrite (perm_swap y m). reflexivity.
Qed.

Lemma swap_Permutation (l l' : list message) (i j : nat) :
  swap l i j = Some l' -> l' ≡ₚ l.
Proof.
  unfold swap. destruct (l !! i) as [mi |] eqn:Ei; [| discriminate].
  destruct (l !! j) as [mj |] eqn:Ej; [| discriminate].
  intros H. injection H as <-.
  assert (Hj : <[i := mj]> l !! j = Some mj).
  { destruct (Nat.eq_dec i j) as [-> | Hne].
    - apply list_lookup_insert_eq. now apply lookup_lt_Some in Ej.
    - rewrite list_lookup_insert_ne by exact Hne. exact Ej. }
  pose proof (insert_Permutation l i mj mi Ei) as H1.
  pose proof (insert_Permutation (<[i := mj]> l) j mi mj Hj) as H2.
  symmetry. apply (Permutation_cons_inv (a := mj)).
  rewrite H1. exact H2.
Qed.

Lemma applySwaps_Permutation (swaps : list (nat * nat)) :
  forall l l', applySwaps swaps l = Some l' -> l' ≡ₚ l.
Proof.
  induction swaps as [| [i j] rest IH]; intros l l' H; simpl in H.
  - now injection H as <-.
  - destruct (swap l i j) as [l1 |] eqn:Es; [| discriminate].
    rewrite (IH _ _ H). exact (swap_Permutation _ _ _ _ Es).
Qed.

Lemma applySwaps_in_range (swaps : list (nat * nat)) :
  forall l, swaps_in_range swaps (length l) -> exists l', applySwaps swaps l = Some l'.
Proof.
  induction swaps as [| [i j] rest IH]; intros l H; simpl.
  - now exists l.
  - inversion H as [| p ps (Hi & Hj) Hrest]; subst. simpl in Hi, Hj.
    destruct (swap_defined l i j Hi Hj) as (mi & mj & _ & _ & ->).
    apply IH. now rewrite !length_insert.
Qed.

(** X9.  The batch [Tick] executes holds exactly the messages the agents
    produced, and one create-miner message or none: shuffling loses and
    duplicates nothing. *)
Theorem shuffled_batch_is_permutation (s s0 : Sim) (batch : list message) :
  produceBatch s = (s0, inl batch) ->
  exists w msgs,
    tickAgents (Agents s) (v s) (heap s, rnd s) [] = (w, inl msgs) /\
    (batch ≡ₚ msgs \/
     exists owner,
       Accounts s !! length (Agents s) = Some owner /\
       batch ≡ₚ msgs ++ [createMiner s owner (newMinerConfig s)]).
Proof.
  unfold produceBatch. intros H.
  destruct (tickAgents (Agents s) (v s) (heap s, rnd s) []) as [w [msgs | e]];
    [| discriminate].
  exists w, msgs. split; [reflexivity |].
  destruct (addMiner_cases (set_world s w) msgs) as [H1 H2].
  destruct (addMiner (set_world s w) msgs) as [r [bm | |]] eqn:Ea; try discriminate.
  destruct (Shuffle (rnd (set_rnd (set_world s w) r)) (length bm)) as [swaps r'].
  destruct (applySwaps swaps bm) as [b |] eqn:Ep; [| discriminate].
  injection H as _ <-. apply applySwaps_Permutation in Ep.
  destruct (Nat.lt_ge_cases (length (Agents s)) (length (Accounts s))) as [Hlt | Hge].
  - destruct (H1 Hlt) as (owner & Ho & Heq). injection Heq as _ Hbm. subst bm.
    destruct (PrimFloat.ltb _ _); [right | left; exact Ep].
    exists owner. split; [exact Ho | exact Ep].
  - assert (Hbm : (r, Returned bm) = (rnd (set_world s w), Returned msgs))
      by (apply H2; simpl; lia).
    injection Hbm as _ ->. left. exact Ep.
Qed.

(** *** Composition *)

(** X10.  The agents are ticked in list order, each on what the ones before
    it left: ticking [agents1 ++ agents2] is ticking [agents1], and then, if
    none failed, [agents2] with the messages collected so far. *)
Theorem tickAgents_app (agents1 agents2 : list Agent) (vm : VM) :
  forall w acc,
    tickAgents (agents1 ++ agents2) vm w acc =
    match tickAgents agents1 vm w acc with
    | (w', inl msgs) => tickAgents agents2 vm w' msgs
    | (w', inr e) => (w', inr e)
    end.
Proof.
  induction agents1 as [| a rest IH]; intros w acc; simpl; [reflexivity |].
  destruct (agentTick a vm w) as [w1 [ms | e]]; [apply IH | reflexivity].
Qed.

(** X11.  Executing a batch is executing its parts one after the other: the
    second part runs on the engine the first has left, and only when the
    first went through. *)
Theorem runMessages_app (msgs1 msgs2 : list message) :
  forall s,
    runMessages (msgs1 ++ msgs2) s =
    match runMessages msgs1 s with
    | (tr1, s1, Done) =>
        let '(tr2, s2, out) := runMessages msgs2 s1 in (tr1 ++ tr2, s2, out)
    | other => other
    end.
Proof.
  induction msgs1 as [| msg rest IH]; intros s.
  - simpl. destruct (runMessages msgs2 s) as [[tr2 s2] out]. reflexivity.
  - simpl app. rewrite !runMessages_cons.
    destruct (apply (v s) (request_of msg)) as [vm [ret code]]. cbv zeta.
    destruct (negb (code =? exitcode_Ok)); [reflexivity |].
    destruct (match ReturnHandler msg with
              | Some h => runHandler h (set_v s vm) msg ret
              | None => (set_v s vm, Done)
              end) as [s1 out1].
    destruct out1; try reflexivity.
    rewrite IH. destruct (runMessages rest s1) as [[tr' s2] out2].
    destruct out2; try reflexivity.
    destruct (runMessages msgs2 s2) as [[tr2 s3] out3]. reflexivity.
Qed.

(** *** Miner creation *)

(** X12.  The message [Sim.createMiner] builds and its handler fit together:
    when the ledger accepts the message and returns a [CreateMinerReturn],
    executing it adds one agent, built from the owner of the message as owner
    and worker and from the two returned addresses; when the ledger accepts
    it and returns anything else, the execution fails with the
    wrong-return-type error, the agent set is as before, and the request
    stays applied. *)
Theorem createMiner_then_handler (s0 s : Sim) (owner : Address) (cfg : MinerAgentConfig)
    (vm : VM) (ret : MethodReturn) :
  apply (v s) (request_of (createMiner s0 owner cfg)) = (vm, (ret, exitcode_Ok)) ->
  runMessages [createMiner s0 owner cfg] s =
  match ret with
  | CreateMinerReturn idAddress robustAddress =>
      let (miner, w) := NewMinerAgent owner owner idAddress robustAddress cfg (heap s, rnd s) in
      ([batchEntry (createMiner s0 owner cfg)],
       set_Agents (set_world (set_v s vm) w) (Agents s ++ [miner]), Done)
  | _ =>
      ([batchEntry (createMiner s0 owner cfg)], set_v s vm, Failed (WrongReturnType ret))
  end.
Proof.
  intros Ha. rewrite runMessages_cons, Ha. cbv zeta.
  change (negb (exitcode_Ok =? exitcode_Ok)) with false. cbv iota.
  destruct ret as [| idAddress robustAddress | r0]; simpl; try reflexivity.
  destruct (NewMinerAgent owner owner idAddress robustAddress cfg (heap s, rnd s)) as [miner w].
  reflexivity.
Qed.

Lemma addMiner_guard (s : Sim) (blockMessages bm : list message) (r : Rng) :
  addMiner s blockMessages = (r, Returned bm) ->
  (creations bm <= creations blockMessages +
                   (if (length (Agents s) <? length (Accounts s))%nat then 1 else 0))%nat.
Proof.
  destruct (addMiner_cases s blockMessages) as [H1 H2].
  destruct (Nat.ltb_spec (length (Agents s)) (length (Accounts s))) as [Hlt | Hge].
  - destruct (H1 Hlt) as (owner & _ & ->). intros H. injection H as _ <-.
    destruct (PrimFloat.ltb _ _); [| lia].
    rewrite creations_app. simpl. lia.
  - rewrite H2 by lia. intros H. injection H as _ <-. lia.
Qed.

Lemma produceBatch_guard (s s0 : Sim) (batch : list message) :
  produceBatch s = (s0, inl batch) ->
  (creations batch <= (if (length (Agents s) <? length (Accounts s))%nat then 1 else 0))%nat.
Proof.
  unfold produceBatch. intros H.
  destruct (tickAgents (Agents s) (v s) (heap s, rnd s) []) as [w [msgs | e]] eqn:Et;
    [| discriminate].
  apply tickAgents_creations in Et. simpl in Et.
  destruct (addMiner (set_world s w) msgs) as [r [bm | |]] eqn:Ea; try discriminate.
  apply addMiner_guard in Ea. simpl in Ea.
  destruct (Shuffle (rnd (set_rnd (set_world s w) r)) (length bm)) as [swaps r'].
  destruct (applySwaps swaps bm) as [b |] eqn:Ep; [| discriminate].
  injection H as _ <-. apply applySwaps_creations in Ep. lia.
Qed.

Lemma Tick_growth (fuel : nat) (s s' : Sim) (tr : list Applied) (out : Outcome) :
  Tick fuel s = (tr, s', out) ->
  Accounts s' = Accounts s /\
  exists new,
    Agents s' = Agents s ++ new /\
    (length new <= (if (length (Agents s) <? length (Accounts s))%nat then 1 else 0))%nat.
Proof.
  set (g := if (length (Agents s) <? length (Accounts s))%nat then 1%nat else 0%nat).
  assert (Hfr : forall n s2, (n <= g)%nat -> frame n s s2 ->
            Accounts s2 = Accounts s /\
            exists new, Agents s2 = Agents s ++ new /\ (length new <= g)%nat).
  { intros n s2 Hn (_ & Ha & _ & new & Hnew & Hl). split; [exact Ha |].
    exists new. split; [exact Hnew | lia]. }
  unfold Tick. intros H.
  destruct (ComputePowerTable (v s) (heap s) (Agents s)) as [pt [err |]].
  { injection H as _ <- _. exact (Hfr 0%nat s ltac:(lia) (frame_refl s)). }
  destruct (produceBatch s) as [s0 [batch | o]] eqn:Epb.
  2:{ apply produceBatch_facts in Epb. destruct Epb as (Hf0 & _).
      injection H as _ <- _. exact (Hfr 0%nat s0 ltac:(lia) Hf0). }
  pose proof (produceBatch_guard _ _ _ Epb) as Hcr. fold g in Hcr.
  apply produceBatch_facts in Epb. destruct Epb as (Hf0 & _).
  destruct (runMessages batch s0) as [[tr1 s1] out1] eqn:Erm.
  apply runMessages_frame in Erm.
  pose proof (frame_trans _ _ _ _ _ Hf0 Erm) as Hf1. simpl in Hf1.
  destruct out1; try (injection H as _ <- _; exact (Hfr _ s1 Hcr Hf1)).
  destruct (applyBlockRewards fuel (totalQAPower pt) (minerPower pt) s1)
    as [[tr2 s2] out2] eqn:Er.
  apply applyBlockRewards_facts in Er. destruct Er as (Hf2 & _ & _).
  pose proof (frame_trans _ _ _ _ _ Hf1 Hf2) as Hf12. rewrite Nat.add_0_r in Hf12.
  destruct out2; try (injection H as _ <- _; exact (Hfr _ s2 Hcr Hf12)).
  destruct (endEpoch s2) as [[tr3 s3] out3] eqn:Ee.
  apply endEpoch_facts in Ee. destruct Ee as (_ & _ & Ha3 & Hg3 & _).
  injection H as _ <- _.
  destruct (Hfr _ s2 Hcr Hf12) as (Ha & new & Hnew & Hl).
  split; [congruence |]. exists new. split; [congruence | exact Hl].
Qed.

(** X13.  The agent set never outgrows the account set: when it is not
    longer than the account set before a call of [Tick], it is not longer
    after it, however the call ends; and the agents it had are still the
    first agents, in their order. *)
Theorem agents_never_outgrow_accounts (fuel : nat) (s s' : Sim) (tr : list Applied)
    (out : Outcome) :
  Tick fuel s = (tr, s', out) ->
  (length (Agents s) <= length (Accounts s))%nat ->
  (length (Agents s') <= length (Accounts s'))%nat /\
  take (length (Agents s)) (Agents s') = Agents s.
Proof.
  intros H Hle. apply Tick_growth in H. destruct H as (Ha & new & Hn & Hl).
  rewrite Ha, Hn, length_app. split.
  - destruct (Nat.ltb_spec (length (Agents s)) (length (Accounts s))); lia.
  - rewrite take_app_length. reflexivity.
Qed.

(** *** Panics *)

Lemma WinCount_no_panic (fuel : nat) (r : Rng) (minerPower totalPower : Z) :
  totalPower <> 0 -> snd (WinCount fuel r minerPower totalPower) <> Panic.
Proof.
  intros Hne. unfold WinCount, Rat.SetFrac.
  destruct (Z.eqb_spec totalPower 0) as [E | _]; [contradiction |].
  destruct (Float64 r) as [h r'].
  set (lambda := Rat.Float64 _).
  pose proof (poissonPMF_no_panic fuel lambda 0) as Hp.
  destruct (poissonPMF fuel lambda 0) as [p0 | |]; simpl;
    [apply WinCount_loop_no_panic | contradiction | discriminate].
Qed.

Lemma params_match_lift (m : message_of Callback) : params_match (liftMessage m).
Proof.
  unfold params_match, isCreateMiner, liftMessage. simpl.
  destruct (ReturnHandler m); simpl; discriminate.
Qed.

Lemma params_match_createMiner (s : Sim) (owner : Address) (cfg : MinerAgentConfig) :
  params_match (createMiner s owner cfg).
Proof. intros _. exists owner, owner, (ProofType cfg). reflexivity. Qed.

Lemma tickAgents_params_match (agents : list Agent) (vm : VM) :
  forall w acc w' msgs,
    Forall params_match acc ->
    tickAgents agents vm w acc = (w', inl msgs) -> Forall params_match msgs.
Proof.
  induction agents as [| a rest IH]; intros w acc w' msgs Hacc H; simpl in H.
  - injection H as _ <-. exact Hacc.
  - destruct (agentTick a vm w) as [w1 [ms | e]]; [| discriminate].
    refine (IH _ _ _ _ _ H). apply Forall_app. split; [exact Hacc |].
    clear. induction ms as [| m ms IHms]; simpl; constructor;
      [apply params_match_lift | exact IHms].
Qed.

Lemma produceBatch_params_match (s s0 : Sim) (batch : list message) :
  produceBatch s = (s0, inl batch) -> Forall params_match batch.
Proof.
  unfold produceBatch. intros H.
  destruct (tickAgents (Agents s) (v s) (heap s, rnd s) []) as [w [msgs | e]] eqn:Et;
    [| discriminate].
  apply tickAgents_params_match in Et; [| constructor].
  destruct (addMiner_cases (set_world s w) msgs) as [H1 H2].
  destruct (addMiner (set_world s w) msgs) as [r [bm | |]] eqn:Ea; try discriminate.
  destruct (Shuffle (rnd (set_rnd (set_world s w) r)) (length bm)) as [swaps r'].
  destruct (applySwaps swaps bm) as [b |] eqn:Ep; [| discriminate].
  injection H as _ <-. apply applySwaps_Permutation in Ep. rewrite Ep.
  destruct (Nat.lt_ge_cases (length (Agents (set_world s w)))
              (length (Accounts (set_world s w)))) as [Hlt | Hge].
  - destruct (H1 Hlt) as (owner & _ & Heq). injection Heq as _ Hbm. subst bm.
    destruct (PrimFloat.ltb _ _); [| exact Et].
    apply Forall_app. split; [exact Et |]. constructor; [| constructor].
    apply params_match_createMiner.
  - assert (Hbm : (r, Returned bm) = (rnd (set_world s w), Returned msgs))
      by (apply H2; lia).
    injection Hbm as _ ->. exact Et.
Qed.

Lemma produceBatch_no_panic (s s0 : Sim) (o : Outcome) :
  Shuffle_in_range -> produceBatch s = (s0, inr o) -> o <> Panicked.
Proof.
  intros Hsh. unfold produceBatch. intros H.
  destruct (tickAgents (Agents s) (v s) (heap s, rnd s) []) as [w [msgs | e]].
  2:{ injection H as _ <-. discriminate. }
  destruct (addMiner_cases (set_world s w) msgs) as [H1 H2].
  destruct (addMiner (set_world s w) msgs) as [r [bm | |]] eqn:Ea.
  - pose proof (Hsh (rnd (set_rnd (set_world s w) r)) (length bm)) as Hr.
    destruct (Shuffle (rnd (set_rnd (set_world s w) r)) (length bm)) as [swaps r'].
    simpl in Hr. destruct (applySwaps_in_range swaps bm Hr) as (l' & El).
    rewrite El in H. discriminate.
  - exfalso.
    destruct (Nat.lt_ge_cases (length (Agents (set_world s w)))
                (length (Accounts (set_world s w)))) as [Hlt | Hge].
    + destruct (H1 Hlt) as (owner & _ & Heq). discriminate.
    + assert (Hbm : (r, @Panic (list message)) = (rnd (set_world s w), Returned msgs))
        by (apply H2; lia).
      discriminate.
  - injection H as _ <-. discriminate.
Qed.

Lemma runHandler_no_panic (h : returnHandler) (s : Sim) (msg : message) (ret : MethodReturn) :
  ReturnHandler msg = Some h -> params_match msg ->
  snd (runHandler h s msg ret) <> Panicked.
Proof.
  intros Hh Hp. unfold runHandler. destruct h as [cfg | cb].
  - destruct ret as [| idAddress robustAddress | r0]; simpl; try discriminate.
    destruct Hp as (owner & worker & proof & ->).
    { unfold isCreateMiner. rewrite Hh. reflexivity. }
    destruct (NewMinerAgent owner worker idAddress robustAddress cfg (heap s, rnd s)).
    simpl. discriminate.
  - destruct (runCallback cb (v s) msg ret (heap s, rnd s)) as [w [err |]];
      simpl; discriminate.
Qed.

Lemma runMessages_no_panic (msgs : list message) :
  forall s, Forall params_match msgs -> snd (runMessages msgs s) <> Panicked.
Proof.
  induction msgs as [| msg rest IH]; intros s Hall; [simpl; discriminate |].
  inversion Hall as [| m ms Hm Hrest]; subst.
  rewrite runMessages_cons.
  destruct (apply (v s) (request_of msg)) as [vm [ret code]]. cbv zeta.
  destruct (negb (code =? exitcode_Ok)); [simpl; discriminate |].
  destruct (ReturnHandler msg) as [h |] eqn:Eh.
  - pose proof (runHandler_no_panic h (set_v s vm) msg ret Eh Hm) as Hh.
    destruct (runHandler h (set_v s vm) msg ret) as [s1 out1]. simpl in Hh.
    destruct out1; try (simpl; congruence).
    specialize (IH s1 Hrest).
    destruct (runMessages rest s1) as [[tr s2] out2]. exact IH.
  - specialize (IH (set_v s vm) Hrest).
    destruct (runMessages rest (set_v s vm)) as [[tr s2] out2]. exact IH.
Qed.

Lemma applyBlockRewards_no_panic (fuel : nat) (total : Z) (miners : list minerPowerTable) :
  forall s, snd (applyBlockRewards fuel total miners s) <> Panicked.
Proof.
  induction miners as [| miner rest IH]; intros s; simpl; [discriminate |].
  destruct (Z.ltb_spec 0 total) as [Hpos | Hle]; [| apply IH].
  pose proof (WinCount_no_panic fuel (rnd s) (qaPower miner) total ltac:(lia)) as Hw.
  destruct (WinCount fuel (rnd s) (qaPower miner) total) as [r [wins | |]]; simpl in Hw;
    [| contradiction | simpl; discriminate].
  unfold rewardMiner. destruct (wins <? 1).
  - specialize (IH (set_rnd s r)).
    destruct (applyBlockRewards fuel total rest (set_rnd s r)) as [[tr' s2] out2]. exact IH.
  - destruct (apply (v (set_rnd s r)) (rewardRequest (addr miner) wins)) as [vm [ret code]].
    destruct (negb (code =? exitcode_Ok)); [simpl; discriminate |].
    specialize (IH (set_v (set_rnd s r) vm)).
    destruct (applyBlockRewards fuel total rest (set_v (set_rnd s r) vm)) as [[tr' s2] out2].
    exact IH.
Qed.

Lemma endEpoch_no_panic (s : Sim) : snd (endEpoch s) <> Panicked.
Proof.
  unfold endEpoch. destruct (apply (v s) cronRequest) as [vm [ret code]].
  destruct (negb (code =? exitcode_Ok)); [simpl; discriminate |].
  destruct (WithEpoch _ _) as [vm' [e |]]; simpl; discriminate.
Qed.

(** X14.  With a [Shuffle] that calls its closure on indices of the slice
    only, [Tick] does not panic: the account of a new miner exists, the
    handler of [Sim.createMiner] finds the parameters it casts to, no swap
    is out of range, and [WinCount] is not called on a total power of 0. *)
Theorem Tick_never_panics (fuel : nat) (s : Sim) :
  Shuffle_in_range -> snd (Tick fuel s) <> Panicked.
Proof.
  intros Hsh. unfold Tick.
  destruct (ComputePowerTable (v s) (heap s) (Agents s)) as [pt [err |]];
    [simpl; discriminate |].
  destruct (produceBatch s) as [s0 [batch | o]] eqn:Epb.
  2:{ simpl. exact (produceBatch_no_panic _ _ _ Hsh Epb). }
  apply produceBatch_params_match in Epb.
  pose proof (runMessages_no_panic batch s0 Epb) as Hrm.
  destruct (runMessages batch s0) as [[tr1 s1] out1]. simpl in Hrm.
  destruct out1; try (simpl; congruence).
  pose proof (applyBlockRewards_no_panic fuel (totalQAPower pt) (minerPower pt) s1) as Hr.
  destruct (applyBlockRewards fuel (totalQAPower pt) (minerPower pt) s1)
    as [[tr2 s2] out2]. simpl in Hr.
  destruct out2; try (simpl; congruence).
  pose proof (endEpoch_no_panic s2) as He.
  destruct (endEpoch s2) as [[tr3 s3] out3]. exact He.
Qed.

(** *** Error reports *)




Lemma endEpoch_cases (s s' : Sim) (tr : list Applied) (out : Outcome) :
  endEpoch s = (tr, s', out) ->
  let vm := ledger_step (v s) cronRequest in
  tr = [(Cron, cronRequest)] /\
  ((exists code,
      out = Failed (CronFailed code (GetLogs (v s'))) /\ code <> exitcode_Ok /\
      v s' = vm /\ statsByMethod s' = statsByMethod s) \/
   (statsByMethod s' = Some (GetCallStats vm) /\
    v s' = fst (WithEpoch vm (Int64.add (GetEpoch vm) 1)) /\
    (out = Done \/
     exists err, out = Failed (External err) /\
                 snd (WithEpoch vm (Int64.add (GetEpoch vm) 1)) = Some err))).
Proof.
  unfold endEpoch, ledger_step.
  destruct (apply (v s) cronRequest) as [vm [ret code]]. simpl fst.
  destruct (Z.eqb_spec code exitcode_Ok) as [Hc | Hc]; simpl negb; cbv iota.
  - simpl v. destruct (WithEpoch vm (Int64.add (GetEpoch vm) 1)) as [vm' err].
    intros H. injection H as <- <- <-. split; [reflexivity |]. right.
    simpl. repeat split. destruct err as [e0 |]; [right; now exists e0 | now left].
  - intros H. injection H as <- <- <-. split; [reflexivity |]. left.
    exists code. simpl. repeat split. exact Hc.
Qed.



(** *** The ledger and the statistics after a call *)

Lemma frame_stats (n : nat) (s s' : Sim) :
  frame n s s' -> statsByMethod s' = statsByMethod s.
Proof. intros (_ & _ & H & _). exact H. Qed.

(** X16.  The ledger of the engine after [Tick] is the ledger of before,
    taken through the requests of the trace in order, whatever the outcome;
    the epoch is advanced, and the statistics [GetCallStats] returns are
    replaced by those of that ledger, after a cron request that succeeded
    and in no other case. *)
Theorem ledger_and_statistics_follow_trace (fuel : nat) (s s' : Sim) (tr : list Applied)
    (out : Outcome) :
  Tick fuel s = (tr, s', out) ->
  let vm := ledger_after (v s) tr in
  (out <> Done /\ Sim_GetVM s' = vm /\ Sim_GetCallStats s' = Sim_GetCallStats s) \/
  (last tr = Some (Cron, cronRequest) /\
   Sim_GetCallStats s' = Some (GetCallStats vm) /\
   Sim_GetVM s' = fst (WithEpoch vm (Int64.add (GetEpoch vm) 1)) /\
   (out = Done \/ exists err, out = Failed (External err))).
Proof.
  unfold Tick, Sim_GetVM, Sim_GetCallStats. intros H.
  destruct (ComputePowerTable (v s) (heap s) (Agents s)) as [pt [err |]].
  { injection H as <- <- <-. left. repeat split. discriminate. }
  destruct (produceBatch s) as [s0 [batch | o]] eqn:Epb.
  2:{ pose proof (produceBatch_not_Done _ _ _ Epb) as Hnd.
      apply produceBatch_facts in Epb. destruct Epb as (Hf0 & Hv0 & _).
      injection H as <- <- <-. left. split; [exact Hnd |].
      split; [exact Hv0 | exact (frame_stats _ _ _ Hf0)]. }
  apply produceBatch_facts in Epb. destruct Epb as (Hf0 & Hv0 & _).
  destruct (runMessages batch s0) as [[tr1 s1] out1] eqn:Erm.
  pose proof (runMessages_ledger _ _ _ _ _ Erm) as Hv1. rewrite Hv0 in Hv1.
  apply runMessages_frame in Erm.
  assert (Hs1 : statsByMethod s1 = statsByMethod s).
  { rewrite (frame_stats _ _ _ Erm). exact (frame_stats _ _ _ Hf0). }
  destruct out1;
    try (injection H as <- <- <-; left; split; [discriminate | split; assumption]).
  destruct (applyBlockRewards fuel (totalQAPower pt) (minerPower pt) s1)
    as [[tr2 s2] out2] eqn:Er.
  apply applyBlockRewards_facts in Er. destruct Er as (Hf2 & Hv2 & _).
  rewrite Hv1, <- ledger_after_app in Hv2.
  assert (Hs2 : statsByMethod s2 = statsByMethod s).
  { rewrite (frame_stats _ _ _ Hf2). exact Hs1. }
  destruct out2;
    try (injection H as <- <- <-; left; split; [discriminate | split; assumption]).
  destruct (endEpoch s2) as [[tr3 s3] out3] eqn:Ee.
  injection H as <- <- <-.
  destruct (endEpoch_cases _ _ _ _ Ee) as (-> & Hc).
  assert (Hl : ledger_after (v s) (tr1 ++ tr2 ++ [(Cron, cronRequest)]) =
               ledger_step (v s2) cronRequest).
  { rewrite List.app_assoc, ledger_after_app, <- Hv2. reflexivity. }
  cbv zeta. rewrite Hl.
  destruct Hc as [(c & -> & Hne & Hv3 & Hs3) | (Hs3 & Hv3 & Ho)].
  - left. split; [discriminate |]. split; [exact Hv3 | congruence].
  - right. rewrite !last_app. split; [reflexivity |]. split; [exact Hs3 |].
    split; [exact Hv3 |]. destruct Ho as [-> | (err & -> & _)];
      [now left | right; now exists err].
Qed.

(** *** The power table *)

Lemma ComputePowerTable_loop_sublist (st : PowerState) (vm : VM) (h : AgentHeap)
    (agents : list Agent) :
  forall pt0 pt e,
    ComputePowerTable_loop st vm h agents pt0 = (pt, e) ->
    blockReward pt = blockReward pt0 /\ totalQAPower pt = totalQAPower pt0 /\
    exists ext,
      minerPower pt = minerPower pt0 ++ ext /\
      sublist (map addr ext) (omap (fun agent => asMinerAgent agent h) agents).
Proof.
  induction agents as [| agent rest IH]; intros pt0 pt e H; simpl in H.
  - injection H as <- <-. repeat split. exists []. rewrite app_nil_r.
    split; [reflexivity | constructor].
  - assert (Hskip : forall x,
              ComputePowerTable_loop st vm h rest pt0 = (pt, e) ->
              blockReward pt = blockReward pt0 /\ totalQAPower pt = totalQAPower pt0 /\
              exists ext,
                minerPower pt = minerPower pt0 ++ ext /\
                sublist (map addr ext)
                  (x ++ omap (fun agent => asMinerAgent agent h) rest)).
    { intros x Hr. destruct (IH _ _ _ Hr) as (Hb & Ht & ext & Hm & Hs).
      split; [exact Hb |]. split; [exact Ht |]. exists ext. split; [exact Hm |].
      apply sublist_inserts_l. exact Hs. }
    assert (Hstop : forall x : list Address,
              (pt0, e) = (pt, e) ->
              blockReward pt = blockReward pt0 /\ totalQAPower pt = totalQAPower pt0 /\
              exists ext,
                minerPower pt = minerPower pt0 ++ ext /\ sublist (map addr ext) x).
    { intros x Hr. injection Hr as <-. repeat split. exists []. rewrite app_nil_r.
      split; [reflexivity | apply sublist_nil_l]. }
    simpl omap. destruct (asMinerAgent agent h) as [idAddress |] eqn:Em.
    2:{ exact (Hskip [] H). }
    destruct (GetClaim st vm idAddress) as [[claim |] | err].
    + destruct (MinerNominalPowerMeetsConsensusMinimum st vm idAddress) as [[|] | err].
      * destruct (IH _ _ _ H) as (Hb & Ht & ext & Hm & Hs). simpl in Hb, Ht, Hm.
        split; [exact Hb |]. split; [exact Ht |].
        exists ({| addr := idAddress; qaPower := QualityAdjPower claim |} :: ext).
        split; [rewrite Hm, <- List.app_assoc; reflexivity |].
        simpl. apply sublist_skip. exact Hs.
      * exact (Hskip [idAddress] H).
      * injection H as <- <-. apply (Hstop _ eq_refl).
    + exact (Hskip [idAddress] H).
    + injection H as <- <-. apply (Hstop _ eq_refl).
Qed.

(** X17.  The power table lists miner agents only, each at most once per
    occurrence in the agent set and in the order of the agent set; when
    [ComputePowerTable] returns no error, the reward and the total power of
    the table are those of the reward and power actors of the ledger. *)
Theorem ComputePowerTable_in_agent_order (vm : VM) (h : AgentHeap) (agents : list Agent)
    (pt : powerTable) (e : option Err) :
  ComputePowerTable vm h agents = (pt, e) ->
  sublist (map addr (minerPower pt)) (omap (fun agent => asMinerAgent agent h) agents) /\
  (length (minerPower pt) <= length agents)%nat /\
  (e = None ->
   exists rwst st,
     GetRewardState vm = inl rwst /\ GetPowerState vm = inl st /\
     blockReward pt = ThisEpochReward rwst /\
     totalQAPower pt = TotalQualityAdjPower st).
Proof.
  unfold ComputePowerTable. intros H.
  assert (Hlen : forall l : list minerPowerTable,
            sublist (map addr l) (omap (fun agent => asMinerAgent agent h) agents) ->
            (length l <= length agents)%nat).
  { intros l Hs. apply sublist_length in Hs. rewrite length_map in Hs.
    assert (Ho : (length (omap (fun agent => asMinerAgent agent h) agents)
                  <= length agents)%nat).
    { clear. induction agents as [| a rest IH]; [simpl; lia |].
      change (omap (fun agent => asMinerAgent agent h) (a :: rest))
        with (match asMinerAgent a h with
              | Some y => y :: omap (fun agent => asMinerAgent agent h) rest
              | None => omap (fun agent => asMinerAgent agent h) rest
              end).
      destruct (asMinerAgent a h); simpl length; lia. }
    lia. }
  destruct (GetRewardState vm) as [rwst | err].
  2:{ injection H as <- <-. simpl. split; [apply sublist_nil_l |].
      split; [lia | discriminate]. }
  destruct (GetPowerState vm) as [st | err].
  2:{ injection H as <- <-. simpl. split; [apply sublist_nil_l |].
      split; [lia | discriminate]. }
  apply ComputePowerTable_loop_sublist in H.
  destruct H as (Hb & Ht & ext & Hm & Hs). simpl in Hb, Ht, Hm. rewrite Hm.
  split; [exact Hs |]. split; [exact (Hlen _ Hs) |].
  intros _. exists rwst, st. repeat split; assumption.
Qed.

(** *** The phases of a call *)





(** X19.  With a total power of 0 or less the reward phase does nothing: it
    submits no request, does not call [WinCount], which would divide by the
    total power, and leaves the engine and its generator as they are. *)
Theorem no_power_no_rewards (fuel : nat) (total : Z) (miners : list minerPowerTable)
    (s : Sim) :
  total <= 0 -> applyBlockRewards fuel total miners s = ([], s, Done).
Proof.
  intros Hle. induction miners as [| miner rest IH]; simpl; [reflexivity |].
  destruct (Z.ltb_spec 0 total); [lia | exact IH].
Qed.

(** *** Engines built by [NewSim] *)

Lemma run_growth (fuel : nat) :
  forall n s,
    let s' := snd (fst (run fuel n s)) in
    Config s' = Config s /\ Accounts s' = Accounts s /\
    (exists new, Agents s' = Agents s ++ new /\ (length new <= n)%nat) /\
    ((length (Agents s) <= length (Accounts s))%nat ->
     (length (Agents s') <= length (Accounts s'))%nat).
Proof.
  induction n as [| n IH]; intros s; simpl.
  - repeat split; [| lia]. exists []. rewrite app_nil_r. split; [reflexivity | simpl; lia].
  - destruct (Tick fuel s) as [[tr s1] out1] eqn:Et.
    pose proof (Tick_frame _ _ _ _ _ Et) as (Hc & _ & _).
    apply Tick_growth in Et. destruct Et as (Ha & new & Hn & Hl).
    assert (Hone : (length new <= 1)%nat).
    { destruct (length (Agents s) <? length (Accounts s))%nat; lia. }
    assert (Hinv : (length (Agents s) <= length (Accounts s))%nat ->
                   (length (Agents s1) <= length (Accounts s1))%nat).
    { intros Hle. rewrite Ha, Hn, length_app.
      destruct (Nat.ltb_spec (length (Agents s)) (length (Accounts s))); lia. }
    assert (Hstop : Config s1 = Config s /\ Accounts s1 = Accounts s /\
              (exists new0, Agents s1 = Agents s ++ new0 /\ (length new0 <= S n)%nat) /\
              ((length (Agents s) <= length (Accounts s))%nat ->
               (length (Agents s1) <= length (Accounts s1))%nat)).
    { split; [exact Hc |]. split; [exact Ha |]. split; [| exact Hinv].
      exists new. split; [exact Hn | lia]. }
    destruct out1; try exact Hstop.
    specialize (IH s1). destruct (run fuel n s1) as [[trs s2] out2]. simpl in IH |- *.
    destruct IH as (Hc2 & Ha2 & (new2 & Hn2 & Hl2) & Hinv2).
    split; [congruence |]. split; [congruence |]. split.
    + exists (new ++ new2). rewrite Hn2, Hn, <- List.app_assoc.
      split; [reflexivity |]. rewrite length_app. lia.
    + intros Hle. apply Hinv2, Hinv, Hle.
Qed.

(** X20.  An engine built by [NewSim] and taken through [n] calls of [Tick],
    stopped by the first error, has at most [n] agents and at most one per
    account; its accounts and its configuration are those [NewSim] gave
    it. *)
Theorem new_engine_agents_bounded (fuel n : nat) (store : Store) (config : SimConfig) :
  let s' := snd (fst (run fuel n (NewSim store config))) in
  (length (Agents s') <= n)%nat /\
  (length (Agents s') <= length (Accounts s'))%nat /\
  Accounts s' = Accounts (NewSim store config) /\
  Config s' = config.
Proof.
  pose proof (NewSim_facts store config) as (Hc & _ & Hag & _).
  pose proof (run_growth fuel n (NewSim store config)) as (Hc' & Ha' & (new & Hn & Hl) & Hinv).
  cbv zeta. rewrite Hag in Hn, Hinv. simpl in Hn.
  split; [rewrite Hn; exact Hl |]. split; [apply Hinv; simpl; lia |].
  split; [exact Ha' | congruence].
Qed.

End EngineMore.

(** ** The further properties in the sample world *)

Module SampleExtras.
Import Sample.
Import SampleMore.

Lemma shuffle_le (i : nat) :
  forall r, Forall (fun p => (fst p <= i)%nat /\ (snd p <= i)%nat) (fst (shuffle i r)).
Proof.
  induction i as [| i IH]; intros r; simpl; [constructor |].
  specialize (IH (next r)). destruct (shuffle i (next r)) as [rest r']. simpl in IH |- *.
  constructor.
  - simpl. split; [lia |].
    pose proof (Z.mod_pos_bound (next r) (Z.of_nat (S (S i))) ltac:(lia)) as Hb.
    replace (Z.pos (Pos.succ (Pos.of_succ_nat i))) with (Z.of_nat (S (S i))) by lia.
    lia.
  - eapply Forall_impl; [exact IH |]. simpl. intros p (H1 & H2). lia.
Qed.

Lemma sample_Shuffle_in_range : @Shuffle_in_range domain collaborators.
Proof.
  intros r n. unfold swaps_in_range. simpl Shuffle.
  destruct n as [| n]; simpl Nat.pred; [constructor |].
  eapply Forall_impl; [apply shuffle_le |]. simpl. intros p (H1 & H2). lia.
Qed.

Lemma shuffled_batch_is_permutation_witness :
  exists w msgs,
    tickAgents (Agents sim1) (v sim1) (heap sim1, rnd sim1) [] = (w, inl msgs) /\
    (batchOf sim1 ≡ₚ msgs \/
     exists owner,
       Accounts sim1 !! length (Agents sim1) = Some owner /\
       batchOf sim1 ≡ₚ msgs ++ [createMiner sim1 owner (newMinerConfig sim1)]).
Proof.
  apply (@shuffled_batch_is_permutation domain collaborators sim1
           (fst (produceBatch sim1)) (batchOf sim1)).
  vm_compute. reflexivity.
Defined.

Lemma createMiner_then_handler_witness :
  runMessages [firstMessage] sim0 =
  ([batchEntry firstMessage],
   set_Agents
     (set_world (set_v sim0 (ledger_step (v sim0) (request_of firstMessage)))
        (heap sim0, rnd sim0))
     (Agents sim0 ++ [MinerAgent 1000]),
   Done).
Proof.
  apply (@createMiner_then_handler domain collaborators sim0 sim0 100 (newMinerConfig sim0)
           (ledger_step (v sim0) (request_of firstMessage))
           (@CreateMinerReturn domain 1000 6000)).
  vm_compute. reflexivity.
Defined.

Lemma agents_never_outgrow_accounts_witness :
  (length (Agents sim2) <= length (Accounts sim2))%nat /\
  take (length (Agents sim1)) (Agents sim2) = Agents sim1.
Proof.
  apply (@agents_never_outgrow_accounts domain collaborators 100 sim1 sim2
           (fst (fst (Tick 100 sim1))) (snd (Tick 100 sim1))).
  - vm_compute. reflexivity.
  - vm_compute. lia.
Defined.

Lemma Tick_never_panics_witness : snd (Tick 100 sim2) <> Panicked.
Proof.
  apply (@Tick_never_panics domain collaborators 100 sim2).
  exact sample_Shuffle_in_range.
Defined.


Lemma ledger_and_statistics_follow_trace_witness :
  Sim_GetCallStats sim2 =
    Some (GetCallStats (ledger_after (v sim1) (fst (fst (Tick 100 sim1))))) /\
  Sim_GetVM sim2 =
    fst (WithEpoch (ledger_after (v sim1) (fst (fst (Tick 100 sim1)))) 2).
Proof.
  assert (H : Tick 100 sim1 = (fst (fst (Tick 100 sim1)), sim2, Done))
    by (vm_compute; reflexivity).
  destruct (@ledger_and_statistics_follow_trace domain collaborators 100 sim1 sim2 _ _ H)
    as [(Hnd & _) | (_ & Hs & Hv & _)].
  - now contradiction Hnd.
  - split; [exact Hs | exact Hv].
Defined.

Lemma ComputePowerTable_in_agent_order_witness :
  sublist (map addr (minerPower (fst (ComputePowerTable (v sim2) (heap sim2) (Agents sim2)))))
    (omap (fun agent => asMinerAgent agent (heap sim2)) (Agents sim2)).
Proof.
  assert (H : ComputePowerTable (v sim2) (heap sim2) (Agents sim2) =
              (fst (ComputePowerTable (v sim2) (heap sim2) (Agents sim2)), None))
    by (vm_compute; reflexivity).
  exact (proj1 (@ComputePowerTable_in_agent_order domain collaborators _ _ _ _ _ H)).
Defined.


Lemma no_power_no_rewards_witness :
  applyBlockRewards 100 0 [someMiner] simEmpty = ([], simEmpty, Done).
Proof.
  apply (@no_power_no_rewards domain collaborators 100 0 [someMiner] simEmpty). lia.
Defined.

End SampleExtras.

(** * The sampler and the Poisson distribution *)

Section QuantileFacts.
Context {D : Domain} {C : Collaborators}.




(** The rate is defined for every total power but 0. *)
Lemma rate_defined (minerPower totalPower : Z) :
  totalPower <> 0 -> exists lambda, rate minerPower totalPower = Some lambda.
Proof.
  intros Hne. unfold rate, Rat.SetFrac.
  destruct (Z.eqb_spec totalPower 0); [contradiction | eexists; reflexivity].
Qed.


(** A NaN is not greater than any number. *)
Lemma float_not_gt_nan (h : float) : Float64.gt nan h = false.
Proof.
  unfold Float64.gt. rewrite ltb_spec. unfold SFltb, SFcompare.
  replace (Prim2SF nan) with S754_nan by reflexivity.
  destruct (Prim2SF h) as [[|] | [|] | | [|] m e]; reflexivity.
Qed.

(** With a rate that overflows binary64 and the documented values
    [Exp(-Inf) = 0], [Pow(+Inf, 0) = 1] and [Pow(+Inf, 1) = +Inf] of package
    [math], the first mass is 0 and the second is a NaN: [WinCount] returns
    1 for every draw below 1. *)
Lemma WinCount_rate_overflow (fuel : nat) (r : Rng) (minerPower totalPower : Z) :
  rate minerPower totalPower = Some infinity ->
  Exp neg_infinity = 0%float ->
  Pow infinity 0 = 1%float ->
  Pow infinity 1 = infinity ->
  PrimFloat.ltb (fst (Float64 r)) 1 = true ->
  (1 <= fuel)%nat ->
  WinCount fuel r minerPower totalPower = (snd (Float64 r), Returned 1).
Proof.
  intros Hrate He Hp0 Hp1 Hh Hfuel. unfold WinCount. unfold rate in Hrate.
  destruct (Rat.SetFrac minerPower totalPower) as [q |]; [| discriminate].
  injection Hrate as Hrate. cbv zeta. rewrite Hrate.
  destruct (Float64 r) as [h r']. simpl fst in Hh. simpl snd.
  assert (Hm0 : poissonPMF fuel infinity 0 = Returned 0%float).
  { unfold poissonPMF. rewrite fact_0. f_equal.
    change (- infinity)%float with neg_infinity.
    change (Float64.of_uint64 0) with 0%float.
    rewrite He, Hp0. reflexivity. }
  assert (Hm1 : poissonPMF (S (Nat.pred fuel)) infinity (Uint64.add 0 1) = Returned nan).
  { unfold poissonPMF.
    replace (Float64.of_uint64 (Uint64.add 0 1)) with 1%float by (vm_compute; reflexivity).
    change (fact (S (Nat.pred fuel)) 1) with (Returned 1%float).
    change (- infinity)%float with neg_infinity.
    rewrite He, Hp1. reflexivity. }
  rewrite Hm0. f_equal.
  destruct fuel as [| fuel]; [lia |]. simpl Nat.pred in Hm1.
  unfold WinCount_loop at 1. fold WinCount_loop.
  change (1 - 0)%float with 1%float.
  replace (Float64.gt 1 h) with true by (symmetry; exact Hh).
  rewrite Hm1. apply WinCount_loop_exit.
  change (1 - nan)%float with nan. apply float_not_gt_nan.
Qed.

End QuantileFacts.

Module SampleSampler.
Import Sample.



End SampleSampler.

(** * The creation of miners *)

Section CreationFacts.
Context {D : Domain} {C : Collaborators}.





(** In the first tick of an engine of [NewSim] the value is the balance of
    the account, when [CreateAccounts] funds every account it returns with
    the balance it is given: nothing has touched the ledger since. *)
Lemma fresh_engine_carries_entire_balance {B : Balances} (store : Store)
    (config : SimConfig) :
  (forall vm n b seed i a,
     fst (CreateAccounts vm n b seed) !! i = Some a ->
     balanceOf (snd (CreateAccounts vm n b seed)) a = b) ->
  carries_entire_balance (NewSim store config).
Proof.
  intros Hfund s0 batch msg Hpb Hin Hc.
  pose proof (NewSim_facts store config) as (Hcfg & _ & Hag & _ & Hacc).
  set (s := NewSim store config) in *.
  unfold produceBatch in Hpb. rewrite Hag in Hpb. simpl tickAgents in Hpb.
  cbv iota beta in Hpb.
  destruct (addMiner_cases (set_world s (heap s, rnd s)) []) as [H1 H2].
  destruct (addMiner (set_world s (heap s, rnd s)) []) as [r [bm | |]] eqn:Ea;
    try discriminate.
  destruct (Shuffle (rnd (set_rnd (set_world s (heap s, rnd s)) r)) (length bm))
    as [swaps r'].
  destruct (applySwaps swaps bm) as [b |] eqn:Ep; [| discriminate].
  injection Hpb as _ <-. apply applySwaps_Permutation in Ep.
  pose proof (Permutation_in msg Ep Hin) as Hin'.
  destruct (Nat.lt_ge_cases (length (Agents (set_world s (heap s, rnd s))))
              (length (Accounts (set_world s (heap s, rnd s))))) as [Hlt | Hge].
  - destruct (H1 Hlt) as (owner & Ho & Heq). injection Heq as _ Hbm. subst bm.
    destruct (PrimFloat.ltb _ _); [| destruct Hin'].
    destruct Hin' as [<- | []]. simpl Value. simpl From_.
    change (Accounts (set_world s (heap s, rnd s))) with (Accounts s) in Ho.
    change (Config (set_world s (heap s, rnd s))) with (Config s).
    rewrite Hcfg. symmetry.
    assert (Ha : Accounts s =
                 fst (CreateAccounts (NewCustomStoreVMWithSingletons store)
                        (AccountCount config) (AccountInitialBalance config) (Seed config)))
      by (rewrite <- Hacc; reflexivity).
    assert (Hv : v s =
                 snd (CreateAccounts (NewCustomStoreVMWithSingletons store)
                        (AccountCount config) (AccountInitialBalance config) (Seed config)))
      by (rewrite <- Hacc; reflexivity).
    rewrite Hv. rewrite Ha in Ho. exact (Hfund _ _ _ _ _ _ Ho).
  - assert (Hbm : (r, Returned bm) = (rnd (set_world s (heap s, rnd s)), Returned []))
      by (apply H2; lia).
    injection Hbm as _ ->. destruct Hin'.
Qed.


End CreationFacts.

Module CreationSample.
Import Sample.


End CreationSample.

Module BankFacts.
Import Bank.


End BankFacts.

(** * Executions *)

Section ExecutionFacts.
Context {D : Domain} {C : Collaborators}.

(** ** An environment of determined calls gives one result *)

Lemma only_single_valued {A : Type} (a : A) : single_valued (only a).
Proof. intros x y Hx Hy. unfold only in *. congruence. Qed.

Lemma andThen_single_valued {A B : Type} (m : Results A) (f : A -> Results B) :
  single_valued m -> (forall a, single_valued (f a)) -> single_valued (andThen m f).
Proof.
  intros Hm Hf b1 b2 (a1 & Ha1 & Hb1) (a2 & Ha2 & Hb2).
  rewrite (Hm _ _ Ha1 Ha2) in Hb1. exact (Hf _ _ _ Hb1 Hb2).
Qed.

Lemma andThen_only {A B : Type} (a : A) (f : A -> Results B) (b : B) :
  f a b -> andThen (only a) f b.
Proof. intros H. exists a. split; [reflexivity | exact H]. Qed.

Section Deterministic.
Variable E : Environment.
Hypothesis HE : deterministic E.

Ltac step :=
  first
    [ apply only_single_valued
    | apply andThen_single_valued; [ | intros ]
    | apply (det_NewVM E HE) | apply (det_CreateAccounts E HE) | apply (det_GetEpoch E HE)
    | apply (det_ApplyMessage E HE) | apply (det_GetLogs E HE)
    | apply (det_GetCallStats E HE) | apply (det_WithEpoch E HE)
    | apply (det_GetRewardState E HE) | apply (det_GetPowerState E HE)
    | apply (det_GetClaim E HE) | apply (det_MeetsConsensusMinimum E HE)
    | apply (det_NewRand E HE) | apply (det_Float32 E HE) | apply (det_Float64 E HE)
    | apply (det_Shuffle E HE) | apply (det_AgentTick E HE)
    | apply (det_NewMinerAgent E HE) | apply (det_RunCallback E HE)
    | match goal with
      | |- single_valued (match ?x with _ => _ end) => destruct x
      | |- single_valued (if ?x then _ else _) => destruct x
      | |- single_valued (let '(_, _) := ?x in _) => destruct x
      end ].

Lemma WinCount_in_single_valued (fuel : nat) (r : Rng) (minerPower totalPower : Z) :
  single_valued (WinCount_in E fuel r minerPower totalPower).
Proof. unfold WinCount_in. repeat step. Qed.

Lemma ComputePowerTable_loop_in_single_valued (st : PowerState) (vm : VM) (h : AgentHeap)
    (agents : list Agent) :
  forall pt, single_valued (ComputePowerTable_loop_in E st vm h agents pt).
Proof.
  induction agents as [| agent rest IH]; intros pt; simpl; [apply only_single_valued |].
  repeat first [apply IH | step].
Qed.

Lemma ComputePowerTable_in_single_valued (vm : VM) (h : AgentHeap) (agents : list Agent) :
  single_valued (ComputePowerTable_in E vm h agents).
Proof.
  unfold ComputePowerTable_in.
  repeat first [apply ComputePowerTable_loop_in_single_valued | step].
Qed.

Lemma NewSim_in_single_valued (store : Store) (config : SimConfig) :
  single_valued (NewSim_in E store config).
Proof. unfold NewSim_in. repeat step. Qed.

Lemma tickAgents_in_single_valued (agents : list Agent) (vm : VM) :
  forall w acc, single_valued (tickAgents_in E agents vm w acc).
Proof.
  induction agents as [| agent rest IH]; intros w acc; simpl; [apply only_single_valued |].
  repeat first [apply IH | step].
Qed.

Lemma addMiner_in_single_valued (s : Sim) (blockMessages : list message) :
  single_valued (addMiner_in E s blockMessages).
Proof. unfold addMiner_in. repeat step. Qed.

Lemma produceBatch_in_single_valued (s : Sim) : single_valued (produceBatch_in E s).
Proof.
  unfold produceBatch_in.
  repeat first [apply tickAgents_in_single_valued | apply addMiner_in_single_valued | step].
Qed.

Lemma runHandler_in_single_valued (h : returnHandler) (s : Sim) (msg : message)
    (ret : MethodReturn) :
  single_valued (runHandler_in E h s msg ret).
Proof. unfold runHandler_in. repeat step. Qed.

Lemma runMessages_in_single_valued (msgs : list message) :
  forall s, single_valued (runMessages_in E msgs s).
Proof.
  induction msgs as [| msg rest IH]; intros s; simpl; [apply only_single_valued |].
  unfold apply_in.
  repeat first [apply IH | apply runHandler_in_single_valued | step].
Qed.

Lemma rewardMiner_in_single_valued (s : Sim) (miner : Address) (wins : Z) :
  single_valued (rewardMiner_in E s miner wins).
Proof. unfold rewardMiner_in, apply_in. repeat step. Qed.

Lemma applyBlockRewards_in_single_valued (fuel : nat) (total : Z)
    (miners : list minerPowerTable) :
  forall s, single_valued (applyBlockRewards_in E fuel total miners s).
Proof.
  induction miners as [| miner rest IH]; intros s; simpl; [apply only_single_valued |].
  repeat first
    [apply IH | apply WinCount_in_single_valued | apply rewardMiner_in_single_valued | step].
Qed.

Lemma endEpoch_in_single_valued (s : Sim) : single_valued (endEpoch_in E s).
Proof. unfold endEpoch_in, apply_in. repeat step. Qed.

Lemma Tick_in_single_valued (fuel : nat) (s : Sim) : single_valued (Tick_in E fuel s).
Proof.
  unfold Tick_in.
  repeat first
    [ apply ComputePowerTable_in_single_valued | apply produceBatch_in_single_valued
    | apply runMessages_in_single_valued | apply applyBlockRewards_in_single_valued
    | apply endEpoch_in_single_valued | step ].
Qed.

Lemma run_in_single_valued (fuel n : nat) :
  forall s, single_valued (run_in E fuel n s).
Proof.
  induction n as [| n IH]; intros s; simpl; [apply only_single_valued |].
  repeat first [apply IH | apply Tick_in_single_valued | step].
Qed.

End Deterministic.
End ExecutionFacts.

(** ** The engine of Section [Engine] is an execution *)

Section FunctionsFacts.
Context {D : Domain} {C : Collaborators}.

Lemma functions_deterministic : deterministic functions.
Proof. constructor; intros; apply only_single_valued. Qed.

Ltac run_only := apply andThen_only.

Lemma WinCount_in_functions (fuel : nat) (r : Rng) (minerPower totalPower : Z) :
  WinCount_in functions fuel r minerPower totalPower (WinCount fuel r minerPower totalPower).
Proof.
  unfold WinCount_in, WinCount.
  destruct (Rat.SetFrac minerPower totalPower); [| reflexivity].
  run_only. destruct (Float64 r) as [h r'].
  destruct (poissonPMF fuel _ 0); reflexivity.
Qed.

Lemma ComputePowerTable_loop_in_functions (st : PowerState) (vm : VM) (h : AgentHeap)
    (agents : list Agent) :
  forall pt,
    ComputePowerTable_loop_in functions st vm h agents pt
      (ComputePowerTable_loop st vm h agents pt).
Proof.
  induction agents as [| agent rest IH]; intros pt; simpl; [reflexivity |].
  destruct (asMinerAgent agent h) as [idAddress |]; [| apply IH].
  run_only. destruct (GetClaim st vm idAddress) as [[claim |] | err];
    [| apply IH | reflexivity].
  run_only. destruct (MinerNominalPowerMeetsConsensusMinimum st vm idAddress)
    as [[|] | err]; [apply IH | apply IH | reflexivity].
Qed.

Lemma ComputePowerTable_in_functions (vm : VM) (h : AgentHeap) (agents : list Agent) :
  ComputePowerTable_in functions vm h agents (ComputePowerTable vm h agents).
Proof.
  unfold ComputePowerTable_in, ComputePowerTable. run_only.
  destruct (GetRewardState vm) as [rwst | err]; [| reflexivity].
  run_only. destruct (GetPowerState vm) as [st | err]; [| reflexivity].
  apply ComputePowerTable_loop_in_functions.
Qed.

Lemma NewSim_in_functions (store : Store) (config : SimConfig) :
  NewSim_in functions store config (NewSim store config).
Proof.
  unfold NewSim_in, NewSim. run_only. run_only.
  destruct (CreateAccounts _ _ _ _) as [accounts vm]. run_only. reflexivity.
Qed.

Lemma tickAgents_in_functions (agents : list Agent) (vm : VM) :
  forall w acc, tickAgents_in functions agents vm w acc (tickAgents agents vm w acc).
Proof.
  induction agents as [| agent rest IH]; intros w acc; simpl; [reflexivity |].
  run_only. destruct (agentTick agent vm w) as [w' [msgs | err]]; [apply IH | reflexivity].
Qed.

Lemma addMiner_in_functions (s : Sim) (blockMessages : list message) :
  addMiner_in functions s blockMessages (addMiner s blockMessages).
Proof.
  unfold addMiner_in, addMiner.
  destruct (length (Agents s) <? length (Accounts s))%nat; [| reflexivity].
  run_only. destruct (Float32 (rnd s)) as [f r].
  destruct (PrimFloat.ltb f _); [| reflexivity].
  destruct (Accounts s !! length (Agents s)); reflexivity.
Qed.

Lemma produceBatch_in_functions (s : Sim) :
  produceBatch_in functions s (produceBatch s).
Proof.
  unfold produceBatch_in, produceBatch.
  exists (tickAgents (Agents s) (v s) (heap s, rnd s) []).
  split; [apply tickAgents_in_functions |].
  destruct (tickAgents (Agents s) (v s) (heap s, rnd s) []) as [w [msgs | err]];
    [| reflexivity].
  exists (addMiner (set_world s w) msgs). split; [apply addMiner_in_functions |].
  destruct (addMiner (set_world s w) msgs) as [r [bm | |]]; try reflexivity.
  run_only. destruct (Shuffle _ _) as [swaps r'].
  destruct (applySwaps swaps bm); reflexivity.
Qed.

Lemma runHandler_in_functions (h : returnHandler) (s : Sim) (msg : message)
    (ret : MethodReturn) :
  runHandler_in functions h s msg ret (runHandler h s msg ret).
Proof.
  unfold runHandler_in, runHandler. destruct h as [cfg | cb].
  - destruct ret; try reflexivity. destruct (Params msg); try reflexivity.
    run_only. destruct (NewMinerAgent _ _ _ _ _ _). reflexivity.
  - run_only. destruct (runCallback _ _ _ _ _) as [w [err |]]; reflexivity.
Qed.

Lemma runMessages_in_functions (msgs : list message) :
  forall s, runMessages_in functions msgs s (runMessages msgs s).
Proof.
  induction msgs as [| msg rest IH]; intros s; [reflexivity |].
  rewrite runMessages_cons. simpl runMessages_in. unfold apply_in.
  exists (apply (v s) (request_of msg)). split; [reflexivity |].
  destruct (apply (v s) (request_of msg)) as [vm [ret code]]. cbv zeta.
  destruct (negb (code =? exitcode_Ok)); [run_only; reflexivity |].
  exists (match ReturnHandler msg with
          | Some h => runHandler h (set_v s vm) msg ret
          | None => (set_v s vm, Done)
          end).
  split. { destruct (ReturnHandler msg); [apply runHandler_in_functions | reflexivity]. }
  destruct (match ReturnHandler msg with
            | Some h => runHandler h (set_v s vm) msg ret
            | None => (set_v s vm, Done)
            end) as [s1 out1].
  destruct out1; try reflexivity.
  exists (runMessages rest s1). split; [apply IH |].
  destruct (runMessages rest s1) as [[tr s2] out2]. reflexivity.
Qed.

Lemma rewardMiner_in_functions (s : Sim) (miner : Address) (wins : Z) :
  rewardMiner_in functions s miner wins (rewardMiner s miner wins).
Proof.
  unfold rewardMiner_in, rewardMiner, apply_in.
  destruct (wins <? 1); [reflexivity |].
  exists (apply (v s) (rewardRequest miner wins)). split; [reflexivity |].
  destruct (apply (v s) (rewardRequest miner wins)) as [vm [ret code]].
  destruct (negb (code =? exitcode_Ok)); [run_only; reflexivity | reflexivity].
Qed.

Lemma applyBlockRewards_in_functions (fuel : nat) (total : Z)
    (miners : list minerPowerTable) :
  forall s,
    applyBlockRewards_in functions fuel total miners s
      (applyBlockRewards fuel total miners s).
Proof.
  induction miners as [| miner rest IH]; intros s; simpl; [reflexivity |].
  destruct (0 <? total); [| apply IH].
  exists (WinCount fuel (rnd s) (qaPower miner) total).
  split; [apply WinCount_in_functions |].
  destruct (WinCount fuel (rnd s) (qaPower miner) total) as [r [wins | |]];
    try reflexivity.
  exists (rewardMiner (set_rnd s r) (addr miner) wins).
  split; [apply rewardMiner_in_functions |].
  destruct (rewardMiner (set_rnd s r) (addr miner) wins) as [[tr s1] out1].
  destruct out1; try reflexivity.
  exists (applyBlockRewards fuel total rest s1). split; [apply IH |].
  destruct (applyBlockRewards fuel total rest s1) as [[tr' s2] out2]. reflexivity.
Qed.

Lemma endEpoch_in_functions (s : Sim) : endEpoch_in functions s (endEpoch s).
Proof.
  unfold endEpoch_in, endEpoch, apply_in.
  exists (apply (v s) cronRequest). split; [reflexivity |].
  destruct (apply (v s) cronRequest) as [vm [ret code]].
  destruct (negb (code =? exitcode_Ok)); [run_only; reflexivity |].
  run_only. run_only. run_only.
  destruct (WithEpoch _ _) as [vm' err]. reflexivity.
Qed.

Lemma Tick_in_functions (fuel : nat) (s : Sim) : Tick_in functions fuel s (Tick fuel s).
Proof.
  unfold Tick_in, Tick.
  exists (ComputePowerTable (v s) (heap s) (Agents s)).
  split; [apply ComputePowerTable_in_functions |].
  destruct (ComputePowerTable (v s) (heap s) (Agents s)) as [pt [err |]]; [reflexivity |].
  exists (produceBatch s). split; [apply produceBatch_in_functions |].
  destruct (produceBatch s) as [s0 [batch | o]]; [| reflexivity].
  exists (runMessages batch s0). split; [apply runMessages_in_functions |].
  destruct (runMessages batch s0) as [[tr1 s1] out1]. destruct out1; try reflexivity.
  exists (applyBlockRewards fuel (totalQAPower pt) (minerPower pt) s1).
  split; [apply applyBlockRewards_in_functions |].
  destruct (applyBlockRewards fuel (totalQAPower pt) (minerPower pt) s1)
    as [[tr2 s2] out2].
  destruct out2; try reflexivity.
  exists (endEpoch s2). split; [apply endEpoch_in_functions |].
  destruct (endEpoch s2) as [[tr3 s3] out3]. reflexivity.
Qed.

Lemma run_in_functions (fuel n : nat) :
  forall s, run_in functions fuel n s (run fuel n s).
Proof.
  induction n as [| n IH]; intros s; simpl; [reflexivity |].
  exists (Tick fuel s). split; [apply Tick_in_functions |].
  destruct (Tick fuel s) as [[tr s1] out1]. destruct out1; try reflexivity.
  exists (run fuel n s1). split; [apply IH |].
  destruct (run fuel n s1) as [[trs s2] out2]. reflexivity.
Qed.

End FunctionsFacts.

(** ** More results of the calls, more executions *)

Section Inclusion.
Context {D : Domain} {C : Collaborators}.

Lemma andThen_included {A B : Type} (m1 m2 : Results A) (f1 f2 : A -> Results B) (b : B) :
  (forall a, m1 a -> m2 a) -> (forall a x, f1 a x -> f2 a x) ->
  andThen m1 f1 b -> andThen m2 f2 b.
Proof. intros Hm Hf (a & Ha & Hb). exists a. split; [apply Hm | apply Hf]; assumption. Qed.

Section Included.
Variables E1 E2 : Environment.
Hypothesis HE : included E1 E2.

Ltac inc H :=
  lazymatch type of H with
  | andThen _ _ _ =>
      let a := fresh "a" in
      let Ha := fresh "Ha" in
      destruct H as (a & Ha & H); exists a; split; [inc Ha | inc H]
  | only _ _ => exact H
  | (match ?x with _ => _ end) _ => destruct x; inc H
  | (if ?x then _ else _) _ => destruct x; inc H
  | _ => first [exact H | solve [destruct HE; eauto]]
  end.

Lemma WinCount_in_included (fuel : nat) (r : Rng) (minerPower totalPower : Z) :
  forall x, WinCount_in E1 fuel r minerPower totalPower x ->
            WinCount_in E2 fuel r minerPower totalPower x.
Proof. unfold WinCount_in. intros x H. inc H. Qed.

Lemma ComputePowerTable_loop_in_included (st : PowerState) (vm : VM) (h : AgentHeap)
    (agents : list Agent) :
  forall pt x,
    ComputePowerTable_loop_in E1 st vm h agents pt x ->
    ComputePowerTable_loop_in E2 st vm h agents pt x.
Proof.
  induction agents as [| agent rest IH]; intros pt x H; simpl in H |- *; inc H.
Qed.

Lemma ComputePowerTable_in_included (vm : VM) (h : AgentHeap) (agents : list Agent) :
  forall x, ComputePowerTable_in E1 vm h agents x -> ComputePowerTable_in E2 vm h agents x.
Proof.
  pose proof ComputePowerTable_loop_in_included as L.
  unfold ComputePowerTable_in. intros x H. inc H.
Qed.

Lemma tickAgents_in_included (agents : list Agent) (vm : VM) :
  forall w acc x, tickAgents_in E1 agents vm w acc x -> tickAgents_in E2 agents vm w acc x.
Proof.
  induction agents as [| agent rest IH]; intros w acc x H; simpl in H |- *; inc H.
Qed.

Lemma addMiner_in_included (s : Sim) (blockMessages : list message) :
  forall x, addMiner_in E1 s blockMessages x -> addMiner_in E2 s blockMessages x.
Proof. unfold addMiner_in. intros x H. inc H. Qed.

Lemma produceBatch_in_included (s : Sim) :
  forall x, produceBatch_in E1 s x -> produceBatch_in E2 s x.
Proof.
  pose proof tickAgents_in_included as L1. pose proof addMiner_in_included as L2.
  unfold produceBatch_in. intros x H. inc H.
Qed.

Lemma runHandler_in_included (h : returnHandler) (s : Sim) (msg : message)
    (ret : MethodReturn) :
  forall x, runHandler_in E1 h s msg ret x -> runHandler_in E2 h s msg ret x.
Proof. unfold runHandler_in. intros x H. inc H. Qed.

Lemma runMessages_in_included (msgs : list message) :
  forall s x, runMessages_in E1 msgs s x -> runMessages_in E2 msgs s x.
Proof.
  pose proof runHandler_in_included as L.
  induction msgs as [| msg rest IH]; intros s x H; simpl in H |- *;
    unfold apply_in in *; inc H.
Qed.

Lemma rewardMiner_in_included (s : Sim) (miner : Address) (wins : Z) :
  forall x, rewardMiner_in E1 s miner wins x -> rewardMiner_in E2 s miner wins x.
Proof. unfold rewardMiner_in, apply_in. intros x H. inc H. Qed.

Lemma applyBlockRewards_in_included (fuel : nat) (total : Z)
    (miners : list minerPowerTable) :
  forall s x,
    applyBlockRewards_in E1 fuel total miners s x ->
    applyBlockRewards_in E2 fuel total miners s x.
Proof.
  pose proof WinCount_in_included as L1. pose proof rewardMiner_in_included as L2.
  induction miners as [| miner rest IH]; intros s x H; simpl in H |- *; inc H.
Qed.

Lemma endEpoch_in_included (s : Sim) :
  forall x, endEpoch_in E1 s x -> endEpoch_in E2 s x.
Proof. unfold endEpoch_in, apply_in. intros x H. inc H. Qed.

Lemma Tick_in_included (fuel : nat) (s : Sim) :
  forall x, Tick_in E1 fuel s x -> Tick_in E2 fuel s x.
Proof.
  pose proof ComputePowerTable_in_included as L1.
  pose proof produceBatch_in_included as L2.
  pose proof runMessages_in_included as L3.
  pose proof applyBlockRewards_in_included as L4.
  pose proof endEpoch_in_included as L5.
  unfold Tick_in. intros x H. inc H.
Qed.

End Included.
End Inclusion.

(** ** Agreement *)

Section Agreement.
Context {D : Domain} {C : Collaborators}.

(** C1.  In an environment whose calls are determined by their arguments
    (the ledger and the agents by the state they are called on, every draw
    by the state of the generator, the generator by the seed), two
    executions of [Tick] on one engine have the same result, and so have
    two executions of a simulation with one store, one configuration (and
    its seed) and one harness adding the agents: the same requests in the
    same order in every tick, the same outcome and the same engine, ledger
    included.  The engine adds no choice of its own: its three draws go
    through the generator [NewSim] made from the seed.  In the environment
    of the functions of Section [Engine] the one execution is the result of
    [run]. *)
Theorem executions_agree (E : Environment) (fuel n : nat) :
  deterministic E ->
  (forall s, single_valued (Tick_in E fuel s)) /\
  (forall store config harness,
     single_valued (simulate E fuel n store config harness)) /\
  (forall store config harness r,
     simulate functions fuel n store config harness r <->
     r = run fuel n (harness (NewSim store config))).
Proof.
  intros HE. split; [| split].
  - intros s. apply Tick_in_single_valued. exact HE.
  - intros store config harness. unfold simulate.
    apply andThen_single_valued.
    + apply NewSim_in_single_valued. exact HE.
    + intros s. apply run_in_single_valued. exact HE.
  - intros store config harness r.
    assert (Hrun : simulate functions fuel n store config harness
                     (run fuel n (harness (NewSim store config)))).
    { exists (NewSim store config). split; [apply NewSim_in_functions | apply run_in_functions]. }
    split.
    + intros Hr. revert Hr Hrun. unfold simulate.
      apply andThen_single_valued.
      * apply NewSim_in_single_valued, functions_deterministic.
      * intros s. apply run_in_single_valued, functions_deterministic.
    + intros ->. exact Hrun.
Qed.

(** The draw matters: when an environment gives [Float32] two results on
    the generator of the engine, one below the configured probability and
    one not, the step that adds a miner has two results, a batch with the
    request and a batch without. *)
Lemma undetermined_draw_two_batches (E : Environment) (s : Sim) (msgs : list message)
    (f1 f2 : float) (r1 r2 : Rng) (owner : Address) :
  (length (Agents s) < length (Accounts s))%nat ->
  Accounts s !! length (Agents s) = Some owner ->
  envFloat32 E (rnd s) (f1, r1) -> envFloat32 E (rnd s) (f2, r2) ->
  PrimFloat.ltb f1 (CreateMinerProbability (Config s)) = true ->
  PrimFloat.ltb f2 (CreateMinerProbability (Config s)) = false ->
  addMiner_in E s msgs (r1, Returned (msgs ++ [createMiner s owner (newMinerConfig s)])) /\
  addMiner_in E s msgs (r2, Returned msgs).
Proof.
  intros Hlt Ho H1 H2 Hf1 Hf2. unfold addMiner_in.
  destruct (Nat.ltb_spec (length (Agents s)) (length (Accounts s))); [| lia].
  split.
  - exists (f1, r1). split; [exact H1 |]. rewrite Hf1, Ho. reflexivity.
  - exists (f2, r2). split; [exact H2 |]. rewrite Hf2. reflexivity.
Qed.

End Agreement.

Module ExecutionSample.
Import Sample.
Import Loose.

Lemma executions_agree_witness :
  single_valued (simulate (@functions domain collaborators) 100 3 tt config (fun s => s)).
Proof.
  exact (proj1 (proj2 (@executions_agree domain collaborators functions 100 3
                         functions_deterministic)) tt config (fun s => s)).
Defined.

(** Whatever number [Float32] is loaded with, the calls of that world are
    among those of [anyFloat32]. *)
Lemma loaded_included (f : float) :
  @included domain (@functions domain (loaded f)) anyFloat32.
Proof.
  constructor; intros; try assumption.
  unfold envFloat32, functions, only in H. simpl in H. subst x. reflexivity.
Qed.

(** So [Tick] of the loaded world is an execution in [anyFloat32]. *)
Lemma Tick_anyFloat32 (f : float) (fuel : nat) (s : Sim) :
  @Tick_in domain collaborators anyFloat32 fuel s (@Tick domain (loaded f) fuel s).
Proof.
  apply (@Tick_in_included domain (loaded f) _ _ (loaded_included f)).
  apply (@Tick_in_functions domain (loaded f)).
Qed.

(** With a [Float32] that the generator does not determine, one call of
    [Tick] on one engine has two results: with the number 0 a miner is
    created, with the number 1 none is. *)
Lemma undetermined_draw_two_executions :
  ~ single_valued (@Tick_in domain collaborators anyFloat32 100 simOne).
Proof.
  intros H.
  specialize (H _ _ (Tick_anyFloat32 0%float 100 simOne) (Tick_anyFloat32 1%float 100 simOne)).
  apply (f_equal (fun r => length (fst (fst r)))) in H. vm_compute in H. discriminate.
Qed.

End ExecutionSample.
